(** * Speech pipeline of the voice translation backend

    A shallow embedding of [backend/app/services/speech_service.py]
    ([SpeechService.voice_to_text], [SpeechService.text_to_speech] and the
    two language-code tables) and of the [voice_speed] field of
    [TextToSpeechRequest] in [backend/app/models/schemas.py]; then of the
    routes that call them ([backend/app/api/routes.py]), of the language
    table of [backend/app/config.py] and of the Gemini translation service
    ([backend/app/services/gemini_service.py]).

    The Python code runs in a state-and-exception monad [PY] over a [world]
    holding the file system, a source of fresh temporary names and a log of
    the observable calls made to libraries (decoders, recognisers, gTTS,
    pydub).  Library calls whose result depends on audio content or on the
    network are fields of an [oracles] record, so every theorem holds for
    every behaviour of those libraries.  The library code whose exact
    behaviour matters for the claims ([base64.b64decode], the slicing,
    appending and [speedup] of pydub, on durations) is written out. *)

From Stdlib Require Import ZArith QArith Qround Ascii String List.
From stdpp Require Import base gmap strings list pretty.

Local Open Scope Z_scope.

(* ------------------------------------------------------------------ *)
(** ** Python values *)

(** A [bytes] object: a list of 8-bit values. *)
Definition bytes := list Z.

(** The exception classes raised on the modelled paths.  All of them are
    subclasses of [Exception], so [except Exception] catches each one. *)
Inductive exc_class :=
| ExcException            (* Exception *)
| ExcBinascii             (* binascii.Error *)
| ExcValue                (* ValueError *)
| ExcAssertion            (* AssertionError *)
| ExcZeroDivision         (* ZeroDivisionError *)
| ExcFileNotFound         (* FileNotFoundError *)
| ExcFileExists           (* FileExistsError *)
| ExcCouldntDecode        (* pydub.exceptions.CouldntDecodeError *)
| ExcCouldntEncode        (* pydub.exceptions.CouldntEncodeError *)
| ExcTooManyMissingFrames (* pydub.exceptions.TooManyMissingFrames *)
| ExcUnknownValue         (* speech_recognition.UnknownValueError *)
| ExcRequest              (* speech_recognition.RequestError *)
| ExcGTTS                 (* gtts.tts.gTTSError *)
| ExcValidation           (* pydantic.ValidationError *)
| ExcKey                  (* KeyError *)
| ExcType                 (* TypeError *)
| ExcNonTermination.      (* a Python loop that never exits *)

Record exc := Exc { exc_cls : exc_class; exc_msg : string }.

(** Outcome of [recognize_google] / [recognize_sphinx]: a transcript, or
    one of the two exceptions these methods raise. *)
Inductive rec_outcome :=
| RecText (t : string)
| RecUnknownValue              (* sr.UnknownValueError: no speech found *)
| RecRequestError (m : string). (* sr.RequestError: backend unreachable *)

(** A pydub [AudioSegment].  Audio content is abstracted away: a segment
    is represented by what [len(segment)] returns, its duration in
    milliseconds.  gTTS produces 24 kHz audio, so every millisecond is a
    whole number of frames and pydub's millisecond slicing is exact. *)
Record AudioSegment := mkSeg { seg_ms : Z }.

(** Observable calls, logged in order. *)
Inductive event :=
| EvTempCreate (p : string)               (* NamedTemporaryFile created p *)
| EvWrite (p : string)                    (* a file was written *)
| EvDecode (fmt : string) (p : string)    (* AudioSegment.from_file(p, fmt) *)
| EvOpenAudio (p : string)                (* sr.AudioFile(p) *)
| EvGoogle (lang : string) (r : rec_outcome)
| EvSphinx (lang : string) (r : rec_outcome)
| EvUnlink (p : string)                   (* os.unlink(p) *)
| EvTts (lang : string) (slow : bool)     (* gTTS(...).save: network request *)
| EvSpeedup (speed : Q)                   (* AudioSegment.speedup *)
| EvExport (p : string).                  (* AudioSegment.export to p *)

Record world := World {
  fs : gmap string bytes;   (* path -> contents *)
  dirs : gset string;       (* existing directories *)
  tmpdir : string;          (* tempfile.gettempdir() *)
  rnd : nat;                (* state of tempfile's random name sequence *)
  log : list event
}.

(** Library behaviour that depends on audio content or the network. *)
Record oracles := Oracles {
  (* the decoding done by AudioSegment.from_file(path, format=fmt) on the
     file's contents (pydub's own WAV reader for "wav", else ffmpeg);
     None: CouldntDecodeError *)
  decode : string -> bytes -> option AudioSegment;
  (* AudioSegment.export(..., format="wav"/"mp3"); None: it raises *)
  export_wav : AudioSegment -> option bytes;
  export_mp3 : AudioSegment -> option bytes;
  (* sr.AudioFile(path) + adjust_for_ambient_noise + record;
     None: the file is not PCM WAV / AIFF / FLAC (ValueError) *)
  load_audio : bytes -> option bytes;
  recognize_google : bytes -> string -> rec_outcome;
  recognize_sphinx : bytes -> string -> rec_outcome;
  (* gtts.lang.tts_langs() membership *)
  tts_supported : string -> bool;
  (* the gTTS web request of tts.save; None: gTTSError *)
  tts_fetch : string -> string -> bool -> option bytes;
  (* str(uuid.uuid4()) drawn by this call *)
  uuid4 : string
}.

(* ------------------------------------------------------------------ *)
(** ** The state and exception monad *)

Definition PY (A : Type) := world -> world * (exc + A).

Definition ret {A} (x : A) : PY A := fun w => (w, inr x).
Definition bind {A B} (m : PY A) (k : A -> PY B) : PY B :=
  fun w => match m w with
           | (w', inl e) => (w', inl e)
           | (w', inr x) => k x w'
           end.
Definition raise {A} (e : exc) : PY A := fun w => (w, inl e).

Notation "'let!' x := m 'in' k" := (bind m (fun x => k))
  (at level 200, x name, m at level 100, k at level 200).
Notation "m ;;; k" := (bind m (fun _ => k))
  (at level 100, k at level 200, right associativity).

(** [try: m except <handled e>: h e] *)
Definition try_except {A} (m : PY A) (handled : exc -> bool)
    (h : exc -> PY A) : PY A :=
  fun w => match m w with
           | (w', inl e) => if handled e then h e w' else (w', inl e)
           | r => r
           end.

(** [try: m finally: f] *)
Definition try_finally {A} (m : PY A) (f : PY unit) : PY A :=
  fun w => match m w with
           | (w', r) => match f w' with
                        | (w'', inl e) => (w'', inl e)
                        | (w'', inr _) => (w'', r)
                        end
           end.

Definition lift_sum {A} (r : exc + A) : PY A := fun w => (w, r).

Definition emit (ev : event) : PY unit :=
  fun w => (World (fs w) (dirs w) (tmpdir w) (rnd w) (log w ++ [ev]), inr tt).

Definition any_exception (_ : exc) : bool := true.
Definition is_class (c : exc_class) (e : exc) : bool :=
  match exc_cls e, c with
  | ExcException, ExcException | ExcBinascii, ExcBinascii
  | ExcValue, ExcValue | ExcAssertion, ExcAssertion
  | ExcZeroDivision, ExcZeroDivision | ExcFileNotFound, ExcFileNotFound
  | ExcFileExists, ExcFileExists | ExcCouldntDecode, ExcCouldntDecode
  | ExcCouldntEncode, ExcCouldntEncode
  | ExcTooManyMissingFrames, ExcTooManyMissingFrames
  | ExcUnknownValue, ExcUnknownValue | ExcRequest, ExcRequest
  | ExcGTTS, ExcGTTS | ExcValidation, ExcValidation
  | ExcKey, ExcKey | ExcType, ExcType
  | ExcNonTermination, ExcNonTermination => true
  | _, _ => false
  end.

(* ------------------------------------------------------------------ *)
(** ** Strings and the file system *)

Local Open Scope string_scope.

(** [s.startswith(p)] *)
Fixpoint startswith (p s : string) : bool :=
  match p, s with
  | EmptyString, _ => true
  | String a p', String b s' => if Ascii.eqb a b then startswith p' s' else false
  | String _ _, EmptyString => false
  end.

(** [s.endswith(suffix)] *)
Definition endswith (suffix s : string) : bool :=
  let n := String.length s in
  let m := String.length suffix in
  (m <=? n)%nat && String.eqb (substring (n - m) m s) suffix.

(** [s.lower()] (the ASCII range). *)
Definition py_lower (s : string) : string :=
  string_of_list_ascii
    (map (fun c => let n := nat_of_ascii c in
                   if ((65 <=? n) && (n <=? 90))%nat then ascii_of_nat (n + 32) else c)
       (list_ascii_of_string s)).

(** [s.replace(old, new)] for a non-empty [old]: every non-overlapping
    occurrence, scanned from the left, is replaced. *)
Fixpoint str_replace_fuel (fuel : nat) (old new s : string) : string :=
  match fuel with
  | O => s
  | S f =>
      match s with
      | EmptyString => EmptyString
      | String c s' =>
          if startswith old s
          then new ++ str_replace_fuel f old new
                        (substring (String.length old)
                           (String.length s - String.length old) s)
          else String c (str_replace_fuel f old new s')
      end
  end.

Definition str_replace (s old new : string) : string :=
  str_replace_fuel (String.length s) old new s.

(** Position just after the last ["/"] of [s] ([s.rfind("/") + 1]). *)
Fixpoint after_last_slash (s : string) (i : nat) (best : nat) : nat :=
  match s with
  | EmptyString => best
  | String c s' =>
      after_last_slash s' (S i) (if Ascii.eqb c "/"%char then S i else best)
  end.

(** [os.path.dirname] for paths without repeated ["/"]. *)
Definition dirname (p : string) : string :=
  match after_last_slash p 0 0 with
  | O => ""
  | 1%nat => "/"
  | S k => substring 0 k p
  end.

Definition set_fs (m : gmap string bytes) (w : world) : world :=
  World m (dirs w) (tmpdir w) (rnd w) (log w).

Definition get_world : PY world := fun w => (w, inr w).
Definition modify (f : world -> world) : PY unit := fun w => (f w, inr tt).

Definition dir_exists (d : string) (w : world) : bool :=
  String.eqb d "" || bool_decide (d ∈ dirs w).

Definition enoent (p : string) : exc :=
  Exc ExcFileNotFound ("[Errno 2] No such file or directory: '" ++ p ++ "'").

(** [with open(p, 'wb') as f: f.write(data)] *)
Definition write_file (p : string) (data : bytes) : PY unit :=
  let! w := get_world in
  if dir_exists (dirname p) w
  then modify (set_fs (<[p := data]> (fs w))) ;;; emit (EvWrite p)
  else raise (enoent p).

(** [open(p, 'rb').read()] *)
Definition read_file (p : string) : PY bytes :=
  let! w := get_world in
  match fs w !! p with
  | Some d => ret d
  | None => raise (enoent p)
  end.

(** [os.path.exists(p)] *)
Definition path_exists (p : string) : PY bool :=
  let! w := get_world in ret (bool_decide (is_Some (fs w !! p))).

(** [os.unlink(p)] *)
Definition unlink (p : string) : PY unit :=
  let! w := get_world in
  match fs w !! p with
  | Some _ => modify (set_fs (delete p (fs w))) ;;; emit (EvUnlink p)
  | None => raise (enoent p)
  end.

(** tempfile's [_RandomNameSequence]: eight characters drawn from
    [characters]; the random generator is the counter [rnd]. *)
Definition name_chars := "abcdefghijklmnopqrstuvwxyz0123456789_".

Fixpoint rand_chars (k : nat) (n : nat) : string :=
  match k with
  | O => ""
  | S k' =>
      match String.get (n mod 37) name_chars with
      | Some c => String c (rand_chars k' (n / 37))
      | None => rand_chars k' (n / 37)
      end
  end.

Definition TMP_MAX : nat := 10000.

(** [tempfile._mkstemp_inner]: try [TMP_MAX] names, create the first one
    that does not exist yet (O_EXCL), empty. *)
Fixpoint mkstemp_loop (fuel : nat) (suffix : string) : PY string :=
  match fuel with
  | O => raise (Exc ExcFileExists "No usable temporary file name found")
  | S f =>
      let! w := get_world in
      let name := tmpdir w ++ "/tmp" ++ rand_chars 8 (rnd w) ++ suffix in
      modify (fun w => World (fs w) (dirs w) (tmpdir w) (S (rnd w)) (log w)) ;;;
      if bool_decide (is_Some (fs w !! name))
      then mkstemp_loop f suffix
      else if dir_exists (tmpdir w) w
      then modify (set_fs (<[name := []]> (fs w))) ;;;
           emit (EvTempCreate name) ;;; ret name
      else raise (enoent name)
  end.

(** [tempfile.NamedTemporaryFile(suffix=suffix, delete=False)]: the file
    is created and stays on disk when the [with] block is left. *)
Definition named_temporary_file (suffix : string) : PY string :=
  mkstemp_loop TMP_MAX suffix.

(* ------------------------------------------------------------------ *)
(** ** [base64.b64decode(s)] (CPython 3.11, [validate=False]) *)

(** [table_a2b_base64]: the value of a base64 alphabet character. *)
Definition b64_value (c : ascii) : option Z :=
  let n := Z.of_nat (nat_of_ascii c) in
  (if (65 <=? n) && (n <=? 90) then Some (n - 65)
  else if (97 <=? n) && (n <=? 122) then Some (n - 71)
  else if (48 <=? n) && (n <=? 57) then Some (n + 4)
  else if n =? 43 then Some 62
  else if n =? 47 then Some 63
  else None)%Z.

(** The loop of [binascii.a2b_base64] with [strict_mode] off: characters
    outside the alphabet are skipped, a pad sequence after two or three
    data characters ends the input.  [out] holds the bytes in reverse. *)
Fixpoint a2b_base64_loop (s : string) (quad_pos leftchar pads : Z)
    (out : list Z) : exc + bytes :=
  match s with
  | EmptyString =>
      if (quad_pos =? 0)%Z then inr (rev out)
      else if (quad_pos =? 1)%Z then
        inl (Exc ExcBinascii
               ("Invalid base64-encoded string: number of data characters ("
                ++ pretty (N.of_nat (length out / 3 * 4 + 1))
                ++ ") cannot be 1 more than a multiple of 4"))
      else inl (Exc ExcBinascii "Incorrect padding")
  | String c s' =>
      if Ascii.eqb c "="%char then
        (* [quad_pos >= 2 && quad_pos + ++pads >= 4] *)
        if (2 <=? quad_pos)%Z then
          if (4 <=? quad_pos + (pads + 1))%Z then inr (rev out)
          else a2b_base64_loop s' quad_pos leftchar (pads + 1)%Z out
        else a2b_base64_loop s' quad_pos leftchar pads out
      else
        match b64_value c with
        | None => a2b_base64_loop s' quad_pos leftchar pads out
        | Some v =>
            if (quad_pos =? 0)%Z then a2b_base64_loop s' 1 v 0 out
            else if (quad_pos =? 1)%Z then
              a2b_base64_loop s' 2 (Z.land v 15) 0
                (Z.land (Z.lor (Z.shiftl leftchar 2) (Z.shiftr v 4)) 255 :: out)
            else if (quad_pos =? 2)%Z then
              a2b_base64_loop s' 3 (Z.land v 3) 0
                (Z.land (Z.lor (Z.shiftl leftchar 4) (Z.shiftr v 2)) 255 :: out)
            else
              a2b_base64_loop s' 0 0 0
                (Z.land (Z.lor (Z.shiftl leftchar 6) v) 255 :: out)
        end
  end.

Fixpoint is_ascii_str (s : string) : bool :=
  match s with
  | EmptyString => true
  | String c s' => (nat_of_ascii c <? 128)%nat && is_ascii_str s'
  end.

Definition b64decode (s : string) : exc + bytes :=
  if is_ascii_str s then a2b_base64_loop s 0 0 0 []
  else inl (Exc ExcValue "string argument should contain only ASCII characters").

(** Strictly valid base64 (RFC 4648, what [b64decode(s, validate=True)]
    accepts): alphabet characters, then at most two ["="], total length a
    multiple of four. *)
Fixpoint all_pads (s : string) : bool :=
  match s with
  | EmptyString => true
  | String c s' => Ascii.eqb c "="%char && all_pads s'
  end.

Fixpoint strict_b64_body (s : string) (n : nat) : bool :=
  match s with
  | EmptyString => Nat.eqb (n mod 4) 0
  | String c s' =>
      match b64_value c with
      | Some _ => strict_b64_body s' (S n)
      | None => all_pads s && (String.length s <=? 2)%nat
                && Nat.eqb ((n + String.length s) mod 4) 0
                && negb (Nat.eqb (n mod 4) 0)
      end
  end.

Definition is_valid_base64 (s : string) : bool := strict_b64_body s 0.

(* ------------------------------------------------------------------ *)
(** ** The language-code tables *)

(** [recognition_mapping] of [_get_recognition_language_code]. *)
Definition recognition_mapping : gmap string string :=
  list_to_map [("en", "en-US"); ("hi", "hi-IN"); ("kn", "kn-IN");
               ("ta", "ta-IN"); ("te", "te-IN"); ("ml", "ml-IN");
               ("bn", "bn-IN"); ("gu", "gu-IN"); ("mr", "mr-IN");
               ("pa", "pa-IN"); ("ur", "ur-PK"); ("es", "es-ES");
               ("fr", "fr-FR"); ("de", "de-DE"); ("it", "it-IT");
               ("pt", "pt-PT"); ("ru", "ru-RU"); ("ja", "ja-JP");
               ("ko", "ko-KR"); ("zh", "zh-CN"); ("ar", "ar-SA")].

(** [recognition_mapping.get(language, "en-US")] *)
Definition _get_recognition_language_code (language : string) : string :=
  default "en-US" (recognition_mapping !! language).

(** [tts_mapping] of [_get_tts_language_code]. *)
Definition tts_mapping : gmap string string :=
  list_to_map [("kn", "kn"); ("ta", "ta"); ("te", "te"); ("ml", "ml");
               ("bn", "bn"); ("gu", "gu"); ("mr", "mr"); ("pa", "pa");
               ("ur", "ur"); ("zh", "zh-cn")].

(** [tts_mapping.get(language, language)] *)
Definition _get_tts_language_code (language : string) : string :=
  default language (tts_mapping !! language).

(* ------------------------------------------------------------------ *)
(** ** pydub on durations

    A Python float is modelled by the rational it denotes; the literals of
    the code ([0.8], [1.0], [2.0]) compare on doubles exactly as on [4/5],
    [1], [2].  Where a float result is truncated or printed, the rounding
    of each double operation is written out ([to_double]).  Lengths are in
    milliseconds. *)

Definition sbind {A B} (m : exc + A) (k : A -> exc + B) : exc + B :=
  match m with inl e => inl e | inr x => k x end.
Notation "'let?' x := m 'in' k" := (sbind m (fun x => k))
  (at level 200, x name, m at level 100, k at level 200).

Definition Qltb (a b : Q) : bool := negb (Qle_bool b a).

(** [int(x)] on a float: truncation towards zero. *)
Definition Qtrunc (q : Q) : Z :=
  if Qle_bool 0 q then Qfloor q else (- Qfloor (- q))%Z.

(** Python's [math.ceil(a / b)] for [b <> 0]. *)
Definition ceil_div (a b : Z) : Z := (- ((- a) / b))%Z.

(** Normalised bound of a Python slice of a sequence of length [n]. *)
Definition pyslice_norm (n x : Z) : Z :=
  if (x <? 0)%Z then Z.max 0 (x + n) else Z.min x n.
Definition pyslice_len (n a b : Z) : Z :=
  Z.max 0 (pyslice_norm n b - pyslice_norm n a).

(** Frames in one millisecond of the 24 kHz audio gTTS produces. *)
Definition frames_per_ms : Z := 24.

(** [AudioSegment.__getitem__(slice(start, stop))]: the bounds are capped
    at [len], a negative bound counts from the end ([_parse_position]),
    the raw data is sliced, and up to 2 ms of missing data
    ([frame_count(ms=2)] frames) are padded with silence. *)
Definition seg_getitem (s : AudioSegment) (start stop : option Z)
    : exc + AudioSegment :=
  let L := seg_ms s in
  let st := Z.min (default 0%Z start) L in
  let en := Z.min (default L stop) L in
  let parse v := if (v <? 0)%Z then (L - Z.abs v)%Z else v in
  let ps := parse st in
  let pe := parse en in
  let got := pyslice_len L ps pe in
  let missing := (pe - ps - got)%Z in
  if (missing =? 0)%Z then inr (mkSeg got)
  else if (2 <? missing)%Z then
    inl (Exc ExcTooManyMissingFrames
           ("You should never be filling in    more than 2 ms with silence here, missing frames: "
            ++ pretty (missing * frames_per_ms)%Z))
  else inr (mkSeg (got + Z.max 0 missing)).

(** [seg.fade(..., start=0, end=float('inf'))]: same length; on an empty
    segment the per-sample step divides by zero frames. *)
Definition seg_fade (s : AudioSegment) : exc + AudioSegment :=
  if (seg_ms s =? 0)%Z then inl (Exc ExcZeroDivision "float division by zero")
  else inr s.

(** [seg1.overlay(seg2, position=0, loop=True)] ([seg1 * seg2]): the
    length of [seg1]; looping an empty [seg2] over a non-empty [seg1]
    never ends. *)
Definition seg_overlay (s1 s2 : AudioSegment) : exc + AudioSegment :=
  if (seg_ms s2 =? 0)%Z && negb (seg_ms s1 =? 0)%Z
  then inl (Exc ExcNonTermination "overlay loop")
  else inr s1.

(** [seg1.append(seg2, crossfade)] *)
Definition seg_append (s1 s2 : AudioSegment) (crossfade : Z)
    : exc + AudioSegment :=
  if (crossfade =? 0)%Z then inr (mkSeg (seg_ms s1 + seg_ms s2))
  else if (seg_ms s1 <? crossfade)%Z then
    inl (Exc ExcValue ("Crossfade is longer than the original AudioSegment ("
                       ++ pretty crossfade ++ "ms > " ++ pretty (seg_ms s1) ++ "ms)"))
  else if (seg_ms s2 <? crossfade)%Z then
    inl (Exc ExcValue ("Crossfade is longer than the appended AudioSegment ("
                       ++ pretty crossfade ++ "ms > " ++ pretty (seg_ms s2) ++ "ms)"))
  else
    let? xf0 := seg_getitem s1 (Some (- crossfade)%Z) None in
    let? xf1 := seg_fade xf0 in
    let? b0 := seg_getitem s2 None (Some crossfade) in
    let? b1 := seg_fade b0 in
    let? xf := seg_overlay xf1 b1 in
    let? p1 := seg_getitem s1 None (Some (- crossfade)%Z) in
    let? p3 := seg_getitem s2 (Some crossfade) None in
    inr (mkSeg (seg_ms p1 + seg_ms xf + seg_ms p3)).

Fixpoint chunks_from (s : AudioSegment) (cl : Z) (i k : nat)
    : exc + list AudioSegment :=
  match k with
  | O => inr []
  | S k' =>
      let? c := seg_getitem s (Some (Z.of_nat i * cl)%Z)
                  (Some ((Z.of_nat i + 1) * cl)%Z) in
      let? cs := chunks_from s cl (S i) k' in
      inr (c :: cs)
  end.

(** [pydub.utils.make_chunks(seg, chunk_length)] *)
Definition make_chunks (s : AudioSegment) (cl : Z)
    : exc + list AudioSegment :=
  if (cl =? 0)%Z then inl (Exc ExcZeroDivision "float division by zero")
  else chunks_from s cl 0 (Z.to_nat (ceil_div (seg_ms s) cl)).

Fixpoint map_sum {A B} (f : A -> exc + B) (l : list A) : exc + list B :=
  match l with
  | [] => inr []
  | x :: l' => let? y := f x in let? ys := map_sum f l' in inr (y :: ys)
  end.

Fixpoint fold_sum {A B} (f : A -> B -> exc + A) (acc : A) (l : list B)
    : exc + A :=
  match l with
  | [] => inr acc
  | x :: l' => let? acc' := f acc x in fold_sum f acc' l'
  end.

(** Rounding to the nearest integer, ties to even. *)
Definition Qround_half_even (q : Q) : Z :=
  let f := Qfloor q in
  let r := (q - inject_Z f)%Q in
  if Qltb r (1 # 2) then f
  else if Qltb (1 # 2) r then (f + 1)%Z
  else if Z.even f then f else (f + 1)%Z.

Definition Qpow2 (e : Z) : Q :=
  if (0 <=? e)%Z then inject_Z (2 ^ e) else / inject_Z (2 ^ (- e)).

(** The double nearest to a positive [q] below [2^1024]: [q] rounded to
    53 significant bits (to a multiple of [2^-1074] below [2^-1022]),
    ties to even. *)
Definition to_double_pos (q : Q) : Q :=
  let e0 := (Z.log2 (Qnum q) - Z.log2 (Zpos (Qden q)) - 52)%Z in
  let e1 := if Qltb (q / Qpow2 e0) (inject_Z (2 ^ 52)) then (e0 - 1)%Z else e0 in
  let e := Z.max (-1074) e1 in
  (inject_Z (Qround_half_even (q / Qpow2 e)) * Qpow2 e)%Q.

Definition to_double (q : Q) : Q :=
  if Qltb 0 q then to_double_pos q
  else if Qltb q 0 then (- to_double_pos (- q))%Q
  else 0%Q.

Fixpoint zeros (n : nat) : string :=
  match n with O => "" | S n' => String "0" (zeros n') end.

(** [format(x, "0.<d>f")] for the float [x] nearest to [q]: the exact
    value of the double rounded to [d] decimals, ties to even. *)
Definition py_format_fixed (d : nat) (q : Q) : string :=
  let x := to_double q in
  let k := Qround_half_even (x * inject_Z (10 ^ Z.of_nat d)) in
  let a := Z.abs k in
  let ip := (a / 10 ^ Z.of_nat d)%Z in
  let fp := pretty ((a mod 10 ^ Z.of_nat d)%Z) in
  ((if Qltb x 0 then "-" else "") ++ pretty ip ++
   match d with
   | O => ""
   | S _ => "." ++ zeros (d - String.length fp) ++ fp
   end)%string.

(** [pydub.effects.speedup(seg, playback_speed, chunk_size=150,
    crossfade=25)]; [seg.duration_seconds] is [len(seg) / 1000]. *)

(** [(ms_to_remove_per_chunk, chunk_size)] as [speedup] computes them, in
    the double arithmetic of its code: every float operation is rounded. *)
Definition speedup_params (playback_speed : Q) : Z * Z :=
  let atk := to_double (/ playback_speed) in
  if Qltb playback_speed 2
  then (Qtrunc (to_double (to_double (150 * to_double (1 - atk)) / atk)), 150%Z)
  else (150%Z, Qtrunc (to_double (to_double (atk * 150) / to_double (1 - atk)))).

Definition speedup (seg : AudioSegment) (playback_speed : Q)
    : exc + AudioSegment :=
  if Qeq_bool playback_speed 0 then
    inl (Exc ExcZeroDivision "float division by zero")
  else
  let '(ms_to_remove_per_chunk, chunk_size) := speedup_params playback_speed in
  let crossfade := Z.min 25 (ms_to_remove_per_chunk - 1) in
  let? chunks := make_chunks seg (chunk_size + ms_to_remove_per_chunk) in
  if (length chunks <? 2)%nat then
    inl (Exc ExcException
      ("Could not speed up AudioSegment, it was too short "
       ++ py_format_fixed 2 (inject_Z (seg_ms seg) / 1000) ++ "s for the current settings:
" ++ pretty chunk_size ++ "ms chunks at " ++ py_format_fixed 1 playback_speed
       ++ "x speedup"))
  else
  let ms_to_remove := (ms_to_remove_per_chunk - crossfade)%Z in
  let last_chunk := List.last chunks (mkSeg 0) in
  let? trimmed := map_sum (fun c => seg_getitem c None (Some (- ms_to_remove)%Z))
                    (List.removelast chunks) in
  match trimmed with
  | [] => inr last_chunk
  | out0 :: rest =>
      let? out := fold_sum (fun out c => seg_append out c crossfade) out0 rest in
      seg_append out last_chunk 0
  end.

(* ------------------------------------------------------------------ *)
(** ** Library calls on files *)

(** pydub's [AUDIO_FILE_EXT_ALIASES]. *)
Definition audio_file_ext_alias (f : string) : string :=
  if String.eqb f "m4a" then "mp4" else if String.eqb f "wave" then "wav" else f.

(** [is_format(f)] inside [AudioSegment.from_file(p, format=fmt)]: the
    lower-cased, aliased [fmt] is [f], or the lower-cased file name ends
    with ["." + f]. *)
Definition is_format (p fmt f : string) : bool :=
  String.eqb (audio_file_ext_alias (py_lower fmt)) f || endswith ("." ++ f) (py_lower p).

(** gTTS's [_fallback_deprecated_lang]: deprecated language codes and the
    code that replaces them. *)
Definition deprecated_langs : list (string * list string) :=
  [("en", ["en-us"; "en-ca"; "en-uk"; "en-gb"; "en-au"; "en-gh"; "en-in";
           "en-ie"; "en-nz"; "en-ng"; "en-ph"; "en-za"; "en-tz"]);
   ("fr", ["fr-ca"; "fr-fr"]);
   ("pt", ["pt-br"; "pt-pt"]);
   ("es", ["es-es"; "es-us"]);
   ("zh-CN", ["zh-cn"]);
   ("zh-TW", ["zh-tw"])].

Definition _fallback_deprecated_lang (lang : string) : string :=
  match List.find (fun fl => existsb (String.eqb (py_lower lang)) (snd fl))
          deprecated_langs with
  | Some (fallback_lang, _) => fallback_lang
  | None => lang
  end.

Section Service.

Variable O : oracles.

(** [AudioSegment.from_file(p, format=fmt)] ([from_mp3], [from_wav],
    [from_ogg] are this call with their format).  The file is opened
    first.  A file that is neither WAV by format nor by name but is raw
    PCM by name ([is_format("raw")] or [is_format("pcm")]) is read with
    [kwargs['sample_width']], which no caller passes: [KeyError]. *)
Definition from_file (p fmt : string) : PY AudioSegment :=
  emit (EvDecode fmt p) ;;;
  let! data := read_file p in
  if negb (is_format p fmt "wav") && (is_format p fmt "raw" || is_format p fmt "pcm")
  then raise (Exc ExcKey "'sample_width'")
  else
  match decode O fmt data with
  | Some s => ret s
  | None => raise (Exc ExcCouldntDecode ("Decoding failed. ffmpeg returned error code: 1"))
  end.

(** [seg.export(p, format=fmt)]: the output file is opened ('wb+') first,
    then the encoded audio is written. *)
Definition export (s : AudioSegment) (p fmt : string) : PY unit :=
  emit (EvExport p) ;;;
  write_file p [] ;;;
  match (if String.eqb fmt "wav" then export_wav O s else export_mp3 O s) with
  | Some b => write_file p b
  | None => raise (Exc ExcCouldntEncode "Encoding failed")
  end.

(** [with sr.AudioFile(p) as source: adjust_for_ambient_noise(source,
    duration=0.5); audio = record(source)] *)
Definition record_audio_file (p : string) : PY bytes :=
  emit (EvOpenAudio p) ;;;
  let! data := read_file p in
  match load_audio O data with
  | Some a => ret a
  | None => raise (Exc ExcValue
      "Audio file could not be read as PCM WAV, AIFF/AIFF-C, or Native FLAC; check if file is corrupted or in another format")
  end.

Definition rec_result (r : rec_outcome) : PY string :=
  match r with
  | RecText t => ret t
  | RecUnknownValue => raise (Exc ExcUnknownValue "")
  | RecRequestError m => raise (Exc ExcRequest m)
  end.

(** [recognizer.recognize_google(audio, language=lang)] *)
Definition recognize_google_call (audio : bytes) (lang : string) : PY string :=
  let r := recognize_google O audio lang in
  emit (EvGoogle lang r) ;;; rec_result r.

(** [recognizer.recognize_sphinx(audio)]: the [language] parameter keeps
    its default value ["en-US"]. *)
Definition recognize_sphinx_call (audio : bytes) : PY string :=
  let r := recognize_sphinx O audio "en-US" in
  emit (EvSphinx "en-US" r) ;;; rec_result r.

(* ------------------------------------------------------------------ *)
(** ** [SpeechService.voice_to_text] *)

Definition format_candidates : list string := ["m4a"; "mp3"; "wav"; "ogg"; "webm"].

(** [for format_type in [...]: try: audio_segment = ...; break
    except Exception: continue] *)
Fixpoint try_formats (raw : string) (fmts : list string)
    : PY (option AudioSegment) :=
  match fmts with
  | [] => ret None
  | f :: fmts' =>
      let! r := try_except (let! s := from_file raw f in ret (Some s))
                  any_exception (fun _ => ret None) in
      match r with
      | Some s => ret (Some s)
      | None => try_formats raw fmts'
      end
  end.

(** Python truth value of [audio_segment]: [None] is false, an
    [AudioSegment] is true when [len(audio_segment) != 0]. *)
Definition seg_truthy (o : option AudioSegment) : bool :=
  match o with
  | Some s => negb (seg_ms s =? 0)%Z
  | None => false
  end.

(** Lines 53-94: conversion to WAV with the raw-bytes fallbacks. *)
Definition convert_to_wav (temp_file_path : string) (audio_bytes : bytes)
    : PY unit :=
  let raw := str_replace temp_file_path ".wav" ".raw" in
  try_except
    (write_file raw audio_bytes ;;;
     let! audio_segment := try_formats raw format_candidates in
     match audio_segment with
     | Some s => if seg_truthy audio_segment
                 then export s temp_file_path "wav"
                 else write_file temp_file_path audio_bytes
     | None => write_file temp_file_path audio_bytes
     end)
    any_exception
    (fun _ => write_file temp_file_path audio_bytes).

(** Lines 107-121: Google first, Sphinx when Google raises
    [RequestError]. *)
Definition recognize (audio : bytes) (recognition_language : string)
    : PY (string * Q) :=
  try_except
    (let! text := recognize_google_call audio recognition_language in
     ret (text, 17 # 20))
    (is_class ExcRequest)
    (fun _ =>
       try_except
         (let! text := recognize_sphinx_call audio in ret (text, 7 # 10))
         (is_class ExcRequest)
         (fun _ => raise (Exc ExcException "Speech recognition service unavailable"))).

(** Lines 126-133: remove both files, ignoring errors. *)
Definition cleanup_one (p : string) : PY unit :=
  let! b := path_exists p in
  if b then try_except (unlink p) any_exception (fun _ => ret tt) else ret tt.

Definition cleanup_paths (ps : list string) : PY unit :=
  fold_right (fun p k => cleanup_one p ;;; k) (ret tt) ps.

(** The outer [except] clauses of [voice_to_text]. *)
Definition voice_to_text_handler (e : exc) : PY (string * Q) :=
  match exc_cls e with
  | ExcUnknownValue => raise (Exc ExcException "Could not understand the audio")
  | ExcRequest => raise (Exc ExcException ("Speech recognition service error: " ++ exc_msg e))
  | _ => raise (Exc ExcException ("Voice to text conversion failed: " ++ exc_msg e))
  end.

Definition voice_to_text (audio_data language : string) : PY (string * Q) :=
  try_except
    (let! audio_bytes := lift_sum (b64decode audio_data) in
     let! temp_file_path := named_temporary_file ".wav" in
     try_finally
       (convert_to_wav temp_file_path audio_bytes ;;;
        let! audio := record_audio_file temp_file_path in
        let recognition_language := _get_recognition_language_code language in
        recognize audio recognition_language)
       (cleanup_paths [temp_file_path; str_replace temp_file_path ".wav" ".raw"]))
    any_exception
    voice_to_text_handler.

(* ------------------------------------------------------------------ *)
(** ** [SpeechService.text_to_speech] *)

Definition audio_output_dir := "app/static/audio".

(** [gTTS(text=text, lang=lang, slow=slow)] (with [lang_check]): the
    text must be non-empty; a deprecated code is replaced by its fallback,
    which must be in [tts_langs()]; the error names the code given. *)
Record gTTS := mkGTTS { tts_text : string; tts_lang : string; tts_slow : bool }.

Definition gTTS_new (text lang : string) (slow : bool) : PY gTTS :=
  if String.eqb text "" then raise (Exc ExcAssertion "No text to speak")
  else
  let lang' := _fallback_deprecated_lang lang in
  if tts_supported O lang' then ret (mkGTTS text lang' slow)
  else raise (Exc ExcValue ("Language not supported: " ++ lang)).

(** [tts.save(p)]: opens [p] for writing, then fetches the audio. *)
Definition gTTS_save (t : gTTS) (p : string) : PY unit :=
  write_file p [] ;;;
  emit (EvTts (tts_lang t) (tts_slow t)) ;;;
  match tts_fetch O (tts_text t) (tts_lang t) (tts_slow t) with
  | Some b => write_file p b
  | None => raise (Exc ExcGTTS "Failed to connect. Probable cause: Unknown")
  end.

(** [audio.speedup(playback_speed=speed)] *)
Definition speedup_call (a : AudioSegment) (speed : Q) : PY AudioSegment :=
  emit (EvSpeedup speed) ;;; lift_sum (speedup a speed).

(** Lines 182-202. *)
Definition adjust_and_export (temp_audio_path audio_path : string)
    (voice_speed : Q) : PY Q :=
  if negb (Qeq_bool voice_speed 1) then
    let! audio := from_file temp_audio_path "mp3" in
    let! audio :=
      if Qltb 1 voice_speed then speedup_call audio voice_speed
      else if Qltb voice_speed 1 then
        (if Qle_bool (4 # 5) voice_speed then speedup_call audio voice_speed
         else ret audio)
      else ret audio in
    export audio audio_path "mp3" ;;;
    ret (inject_Z (seg_ms audio) / 1000)%Q
  else
    let! audio := from_file temp_audio_path "mp3" in
    export audio audio_path "mp3" ;;;
    ret (inject_Z (seg_ms audio) / 1000)%Q.

Definition text_to_speech (text language : string) (voice_speed : Q)
    : PY (string * Q) :=
  try_except
    (let audio_filename := uuid4 O ++ ".mp3" in
     let audio_path := audio_output_dir ++ "/" ++ audio_filename in
     let tts_language := _get_tts_language_code language in
     let! tts := gTTS_new text tts_language (Qltb voice_speed (4 # 5)) in
     let! temp_name := named_temporary_file ".mp3" in
     gTTS_save tts temp_name ;;;
     let temp_audio_path := temp_name in
     let! duration :=
       try_finally (adjust_and_export temp_audio_path audio_path voice_speed)
         (let! b := path_exists temp_audio_path in
          if b then unlink temp_audio_path else ret tt) in
     ret ("/api/v1/audio/" ++ audio_filename, duration))
    any_exception
    (fun e => raise (Exc ExcException ("Text to speech conversion failed: " ++ exc_msg e))).

End Service.

(* ------------------------------------------------------------------ *)
(** ** [TextToSpeechRequest.voice_speed] (pydantic v2)

    [voice_speed: Optional[float] = Field(1.0, ge=0.5, le=2.0)]: the
    value of the field in the request body, and what validation makes of
    it. *)

Inductive json_field :=
| FieldAbsent
| FieldNull
| FieldNumber (q : Q).

Definition validate_voice_speed (f : json_field) : exc + option Q :=
  match f with
  | FieldAbsent => inr (Some 1%Q)
  | FieldNull => inr None
  | FieldNumber q =>
      if Qltb q (1 # 2) then
        inl (Exc ExcValidation "Input should be greater than or equal to 0.5")
      else if Qltb 2 q then
        inl (Exc ExcValidation "Input should be less than or equal to 2")
      else inr (Some q)
  end.

(* ------------------------------------------------------------------ *)
(** ** Observations on runs *)

Definition is_rec_call (ev : event) : bool :=
  match ev with EvGoogle _ _ | EvSphinx _ _ => true | _ => false end.

(** The calls made to the recognition backends, in order. *)
Definition rec_calls (l : list event) : list event := filter is_rec_call l.

Definition reports_no_speech (ev : event) : Prop :=
  match ev with
  | EvGoogle _ RecUnknownValue | EvSphinx _ RecUnknownValue => True
  | _ => False
  end.

Definition is_request_error (r : rec_outcome) : bool :=
  match r with RecRequestError _ => true | _ => false end.

(** The primary, resp. offline, backend was called and unreachable. *)
Definition google_unreachable (ev : event) : Prop :=
  exists l m, ev = EvGoogle l (RecRequestError m).
Definition sphinx_unreachable (ev : event) : Prop :=
  exists l m, ev = EvSphinx l (RecRequestError m).

Definition unintelligible_error : exc :=
  Exc ExcException "Could not understand the audio".
Definition service_unavailable_error : exc :=
  Exc ExcException "Voice to text conversion failed: Speech recognition service unavailable".

Definition is_speedup (ev : event) : bool :=
  match ev with EvSpeedup _ => true | _ => false end.

Definition is_file_event (ev : event) : bool :=
  match ev with
  | EvTempCreate _ | EvDecode _ _ | EvUnlink _ => true
  | _ => false
  end.

(** Every event of [text_to_speech] but the gTTS request and [speedup]. *)
Definition plain_tts_event (ev : event) : Prop :=
  match ev with
  | EvTts _ _ | EvSpeedup _ => False
  | _ => True
  end.

(* ================================================================== *)
(** * Reasoning about runs

    [runs_within P Q m]: whatever the world, a run of [m] only appends
    events satisfying [P] to the log, and an exception it raises
    satisfies [Q]. *)

Definition runs_within {A} (P : event -> Prop) (Q : exc -> Prop) (m : PY A)
    : Prop :=
  forall w, exists new, log (fst (m w)) = (log w ++ new)%list /\ Forall P new /\
    (forall e, snd (m w) = inl e -> Q e).

Local Open Scope list_scope.

(** Events that are not calls to a recognition backend. *)
Definition nonrec (ev : event) : Prop := is_rec_call ev = false.

(** Exceptions that can stop [voice_to_text] before recognition: neither
    a recogniser's exception nor the fallback's failure message. *)
Definition ordinary_exc (e : exc) : Prop :=
  exc_cls e <> ExcUnknownValue /\ exc_cls e <> ExcRequest /\
  exc_msg e <> "Speech recognition service unavailable".

Definition push_log (w : world) (evs : list event) : world :=
  World (fs w) (dirs w) (tmpdir w) (rnd w) (log w ++ evs).

(** The backend calls of lines 107-121 on [audio], and their outcome. *)
Definition rec_new (O : oracles) (audio : bytes) (lang : string) : list event :=
  let g := recognize_google O audio lang in
  EvGoogle lang g ::
    (if is_request_error g
     then [EvSphinx "en-US" (recognize_sphinx O audio "en-US")] else []).

Definition rec_res (O : oracles) (audio : bytes) (lang : string)
    : exc + (string * Q) :=
  match recognize_google O audio lang with
  | RecText t => inr (t, 17 # 20)
  | RecUnknownValue => inl (Exc ExcUnknownValue "")
  | RecRequestError _ =>
      match recognize_sphinx O audio "en-US" with
      | RecText t => inr (t, 7 # 10)
      | RecUnknownValue => inl (Exc ExcUnknownValue "")
      | RecRequestError _ =>
          inl (Exc ExcException "Speech recognition service unavailable")
      end
  end.

(** A run of [m] either stops with an ordinary exception before any
    backend call, or makes the backend calls of one recognition in
    language [lang], surrounded by other events, and ends with its
    outcome. *)
Definition reaches_recognition (O : oracles) (lang : string)
    (m : PY (string * Q)) : Prop :=
  forall w, exists new, log (fst (m w)) = log w ++ new /\
    ((Forall nonrec new /\ exists e, snd (m w) = inl e /\ ordinary_exc e) \/
     (exists audio pre post, Forall nonrec pre /\ Forall nonrec post /\
        new = pre ++ rec_new O audio lang ++ post /\
        snd (m w) = rec_res O audio lang)).

(** A world with the temporary directory and the audio output directory. *)
Definition sample_world : world :=
  World ∅ ({["/tmp"]} ∪ {["app/static/audio"]}) "/tmp" 0 [].

(** Library behaviours for concrete runs: [dec fmt] is what decoding in
    format [fmt] gives, [load] what [sr.AudioFile] reads, [g] and [s] what
    the two recognisers return, [fetch] what the gTTS request returns. *)
Definition sample_oracles (dec : string -> option AudioSegment)
    (load : option bytes) (g s : rec_outcome) (fetch : option bytes)
    : oracles :=
  Oracles (fun fmt _ => dec fmt) (fun _ => Some [82; 73; 70; 70])
    (fun _ => Some [73; 68; 51]) (fun _ => load) (fun _ _ => g) (fun _ _ => s)
    (fun _ => true) (fun _ _ _ => fetch) "8c0e2f4a".


(* ------------------------------------------------------------------ *)
(** ** [base64.b64encode] ([binascii.b2a_base64] without newline) *)

Definition b64_alphabet :=
  "ABCDEFGHIJKLMNOPQRSTUVWXYZabcdefghijklmnopqrstuvwxyz0123456789+/".

(** [table_b2a_base64[v]] for a 6-bit [v]. *)
Definition b64_char (v : Z) : ascii :=
  match String.get (Z.to_nat v) b64_alphabet with Some c => c | None => "="%char end.

(** Three bytes give four characters; a final group of one or two bytes
    is padded with ["="]. *)
Fixpoint b64encode (bs : bytes) : string :=
  match bs with
  | [] => ""
  | [a] =>
      String (b64_char (Z.shiftr a 2))
        (String (b64_char (Z.shiftl (Z.land a 3) 4)) "==")
  | [a; b] =>
      String (b64_char (Z.shiftr a 2))
        (String (b64_char (Z.lor (Z.shiftl (Z.land a 3) 4) (Z.shiftr b 4)))
           (String (b64_char (Z.shiftl (Z.land b 15) 2)) "="))
  | a :: b :: c :: rest =>
      String (b64_char (Z.shiftr a 2))
        (String (b64_char (Z.lor (Z.shiftl (Z.land a 3) 4) (Z.shiftr b 4)))
           (String (b64_char (Z.lor (Z.shiftl (Z.land b 15) 2) (Z.shiftr c 6)))
              (String (b64_char (Z.land c 63)) (b64encode rest))))
  end.

(* ------------------------------------------------------------------ *)
(** ** [app/config.py] and the routes of [app/api/routes.py] *)

(** [settings.supported_languages], in insertion order. *)
Definition supported_languages_list : list (string * string) :=
  [("en", "English"); ("hi", "Hindi"); ("kn", "Kannada"); ("ta", "Tamil");
   ("te", "Telugu"); ("ml", "Malayalam"); ("bn", "Bengali"); ("gu", "Gujarati");
   ("mr", "Marathi"); ("pa", "Punjabi"); ("ur", "Urdu"); ("es", "Spanish");
   ("fr", "French"); ("de", "German"); ("it", "Italian"); ("pt", "Portuguese");
   ("ru", "Russian"); ("ja", "Japanese"); ("ko", "Korean"); ("zh", "Chinese");
   ("ar", "Arabic")].

Definition supported_languages : gmap string string :=
  list_to_map supported_languages_list.

(** [code in settings.supported_languages] *)
Definition is_supported (code : string) : bool :=
  bool_decide (is_Some (supported_languages !! code)).

(** [fastapi.HTTPException(status_code, detail)] *)
Record http_exception := HTTPException { status_code : Z; detail : string }.

(** A route handler: the request is answered with a response or an
    [HTTPException]. *)
Definition ROUTE (A : Type) := world -> world * (http_exception + A).

Definition http_raise {A} (status : Z) (d : string) : ROUTE A :=
  fun w => (w, inl (HTTPException status d)).

(** [try: <service call> ... except HTTPException: raise
    except Exception as e: raise HTTPException(500, detail=prefix + str(e))].
    The services raise only [Exception(msg)], whose [str] is [msg]. *)
Definition route_catch {A} (prefix : string) (m : PY A) : ROUTE A :=
  fun w => match m w with
           | (w', inl e) => (w', inl (HTTPException 500 (prefix ++ exc_msg e)%string))
           | (w', inr x) => (w', inr x)
           end.

Record VoiceToTextResponse := mkVoiceToTextResponse {
  vtt_text : string; vtt_language : string; vtt_confidence_score : option Q }.

Record TextToSpeechResponse := mkTextToSpeechResponse {
  tts_audio_url : string; tts_resp_text : string; tts_resp_language : string;
  tts_duration : option Q }.

(** The dictionary returned by the upload route. *)
Record SpeechToTextResult := mkSpeechToTextResult {
  stt_text : string; stt_transcription : string; stt_language : string;
  stt_confidence_score : Q; stt_filename : option string }.

(** [POST /api/v1/voice-to-text] on a validated [VoiceToTextRequest]. *)
Definition route_voice_to_text (O : oracles) (audio_data language : string)
    : ROUTE VoiceToTextResponse :=
  if is_supported language then
    route_catch "Voice to text conversion failed: "
      (let! r := voice_to_text O audio_data language in
       ret (mkVoiceToTextResponse (fst r) language (Some (snd r))))
  else http_raise 400 ("Unsupported language: " ++ language)%string.

(** [POST /api/v1/speech-to-text]: an uploaded file with its content type
    and file name. *)
Definition route_speech_to_text (O : oracles) (content : bytes)
    (content_type filename : option string) (language : string)
    : ROUTE SpeechToTextResult :=
  if negb (is_supported language) then
    http_raise 400 ("Unsupported language: " ++ language)%string
  else if negb (match content_type with
                | Some ct => startswith "audio/" ct
                | None => false
                end) then
    http_raise 400 "File must be an audio file"
  else
    route_catch "Speech to text conversion failed: "
      (let audio_base64 := b64encode content in
       let! r := voice_to_text O audio_base64 language in
       ret (mkSpeechToTextResult (fst r) (fst r) language (snd r) filename)).

(** A Python value that is [None] or a float. *)
Inductive py_value :=
| PyNone
| PyFloat (q : Q).

Definition py_of_option (o : option Q) : py_value :=
  match o with Some q => PyFloat q | None => PyNone end.

Definition py_type_name (v : py_value) : string :=
  match v with PyNone => "NoneType" | PyFloat _ => "float" end.

(** [a < b] for a float [b]: when [a] is a float too, its value and the
    comparison; [<] is not defined between [None] and a float. *)
Definition py_lt_float (a : py_value) (b : Q) : exc + (Q * bool) :=
  match a with
  | PyFloat x => inr (x, Qltb x b)
  | PyNone => inl (Exc ExcType ("'<' not supported between instances of '"
                                 ++ py_type_name a ++ "' and '"
                                 ++ py_type_name (PyFloat b) ++ "'")%string)
  end.

(** [speech_service.text_to_speech(..., voice_speed=request.voice_speed)]
    with the validated field, which may be [None].  Lines 161-167 do not
    touch the world; line 173 evaluates [voice_speed < 0.8].  On a float
    this is the comparison [text_to_speech] makes; on [None] it raises
    [TypeError] inside the [try] of the service, re-raised by its handler
    (line 217). *)
Definition text_to_speech_optional (O : oracles) (text language : string)
    (voice_speed : option Q) : PY (string * Q) :=
  match py_lt_float (py_of_option voice_speed) (4 # 5) with
  | inr (v, _) => text_to_speech O text language v
  | inl e =>
      raise (Exc ExcException ("Text to speech conversion failed: " ++ exc_msg e)%string)
  end.

(** [POST /api/v1/text-to-speech] on a validated [TextToSpeechRequest]. *)
Definition route_text_to_speech (O : oracles) (text language : string)
    (voice_speed : option Q) : ROUTE TextToSpeechResponse :=
  if is_supported language then
    route_catch "Text to speech conversion failed: "
      (let! r := text_to_speech_optional O text language voice_speed in
       ret (mkTextToSpeechResponse (fst r) text language (Some (snd r))))
  else http_raise 400 ("Unsupported language: " ++ language)%string.

(** [GET /api/v1/audio/{filename}]: the path parameter holds no ["/"], so
    [os.path.join] appends it to the output directory; [os.path.exists]
    holds for files and directories; the response is a [FileResponse] for
    that path. *)
Definition get_audio_file (filename : string) : ROUTE string :=
  fun w =>
    let audio_path := (audio_output_dir ++ "/" ++ filename)%string in
    if bool_decide (is_Some (fs w !! audio_path)) || dir_exists audio_path w
    then (w, inr audio_path)
    else (w, inl (HTTPException 404 "Audio file not found")).

(* ------------------------------------------------------------------ *)
(** ** [app/services/gemini_service.py] *)

(** [str.isspace] on one character (the ASCII range). *)
Definition py_isspace (c : ascii) : bool :=
  let n := nat_of_ascii c in
  (Nat.eqb n 32 || ((9 <=? n) && (n <=? 13)) || ((28 <=? n) && (n <=? 31)))%nat.

(** [s.split()]: the maximal runs of non-whitespace characters. *)
Fixpoint py_split_acc (s : string) (cur : string) : list string :=
  match s with
  | EmptyString => if String.eqb cur "" then [] else [cur]
  | String c s' =>
      if py_isspace c
      then (if String.eqb cur "" then [] else [cur]) ++ py_split_acc s' ""
      else py_split_acc s' (cur ++ String c "")%string
  end.

Definition py_split (s : string) : list string := py_split_acc s "".

(** [s.strip()]: leading, then trailing whitespace removed. *)
Fixpoint drop_spaces (l : list ascii) : list ascii :=
  match l with
  | [] => []
  | c :: l' => if py_isspace c then drop_spaces l' else l
  end.

Definition py_strip (s : string) : string :=
  string_of_list_ascii (rev (drop_spaces (rev (drop_spaces (list_ascii_of_string s))))).

(** [round(x, 2)] on the values that occur below (no ties arise). *)
Definition py_round2 (q : Q) : Q := inject_Z (Qfloor (q * 100 + (1 # 2))) / 100.

(** [_estimate_confidence] once the two word counts are known.  Floats
    are exact rationals; for word counts below 2^26 the double
    comparisons with [0.7] and [0.3] agree with the exact ones, and
    [round(_, 2)] removes the representation error of the sums. *)
Definition confidence_from_counts (original_length translated_length : nat) : Q :=
  if ((original_length =? 0) && (translated_length =? 0))%nat then 7 # 10
  else
    let length_ratio :=
      (inject_Z (Z.of_nat (Nat.min original_length translated_length)) /
       inject_Z (Z.of_nat (Nat.max original_length translated_length)))%Q in
    let confidence := 4 # 5 in
    let confidence :=
      if Qltb (7 # 10) length_ratio then (confidence + (1 # 10))%Q
      else if Qltb length_ratio (3 # 10) then (confidence - (1 # 5))%Q
      else confidence in
    let confidence :=
      if (translated_length <? 2)%nat then (confidence - (3 # 10))%Q else confidence in
    (* max(0.0, min(1.0, confidence)) *)
    let confidence := if Qltb confidence 1 then confidence else 1%Q in
    let confidence := if Qltb 0 confidence then confidence else 0%Q in
    py_round2 confidence.

(** [GeminiTranslationService._estimate_confidence]: the division by
    [max(...)] raises [ZeroDivisionError] when both texts have no word,
    and the handler returns [0.7]. *)
Definition _estimate_confidence (original_text translated_text : string) : Q :=
  confidence_from_counts (length (py_split original_text)) (length (py_split translated_text)).

(** The model's answer to a prompt: [response.text], or the exception
    reading it raises. *)
Record gemini := Gemini {
  translate_reply : string -> string -> string -> exc + string;  (* text, source, target *)
  detect_reply : string -> exc + string
}.

(** [GeminiTranslationService.translate_text] *)
Definition gemini_translate_text (G : gemini) (text source_language target_language : string)
    : exc + (string * Q) :=
  match (let? response_text := translate_reply G text source_language target_language in
         if String.eqb response_text ""
         then inl (Exc ExcException "Empty response from Gemini API")
         else let translated_text := py_strip response_text in
              inr (translated_text, _estimate_confidence text translated_text)) with
  | inl e => inl (Exc ExcException ("Translation failed: " ++ exc_msg e)%string)
  | inr r => inr r
  end.

(** [GeminiTranslationService.detect_language] *)
Definition gemini_detect_language (G : gemini) (text : string) : string :=
  match detect_reply G text with
  | inl _ => "en"
  | inr response_text =>
      let detected_language := py_lower (py_strip response_text) in
      if bool_decide (is_Some (supported_languages !! detected_language))
      then detected_language else "en"
  end.

Record TranslationResponse := mkTranslationResponse {
  original_text : string; translated_text : string; source_language : string;
  target_language : string; confidence_score : option Q }.

(** [POST /api/v1/translate] on a validated [TranslationRequest]. *)
Definition route_translate_text (G : gemini) (text source_language target_language : string)
    : http_exception + TranslationResponse :=
  if negb (is_supported source_language) then
    inl (HTTPException 400 ("Unsupported source language: " ++ source_language)%string)
  else if negb (is_supported target_language) then
    inl (HTTPException 400 ("Unsupported target language: " ++ target_language)%string)
  else
    match gemini_translate_text G text source_language target_language with
    | inl e => inl (HTTPException 500 ("Translation failed: " ++ exc_msg e)%string)
    | inr (translated, confidence) =>
        inr (mkTranslationResponse text translated source_language target_language
               (Some confidence))
    end.


(** [gTTS] knows English only. *)
Definition english_only_oracles : oracles :=
  Oracles (fun _ _ => None) (fun _ => None) (fun _ => None) (fun _ => None)
    (fun _ _ => RecUnknownValue) (fun _ _ => RecUnknownValue)
    (fun l => String.eqb l "en") (fun _ _ _ => None) "0b6d".

(** A model that answers every translation with two spaces. *)
Definition blank_gemini : gemini :=
  Gemini (fun _ _ _ => inr "  ") (fun _ => inr " FR
").

(* ------------------------------------------------------------------ *)
(** ** Files a run may touch *)

(** A run of [m] leaves every path outside [S] as it was. *)
Definition keeps_fs_outside {A} (S : list string) (m : PY A) : Prop :=
  forall w k, k ∉ S -> fs (fst (m w)) !! k = fs w !! k.

(** A world whose temporary directory already holds a [.raw] file with
    the name the next [.wav] temporary file will be given. *)
Definition world_with_raw_sibling : world :=
  World {[ "/tmp/tmpaaaaaaaa.raw" := [7; 7] ]} ({["/tmp"]} ∪ {["app/static/audio"]})
    "/tmp" 0 [].

(** The path an event acts on, if any, and whether it removes a file. *)
Definition event_path (ev : event) : option string :=
  match ev with
  | EvTempCreate p | EvWrite p | EvDecode _ p | EvOpenAudio p
  | EvUnlink p | EvExport p => Some p
  | _ => None
  end.

Definition is_unlink (ev : event) : bool :=
  match ev with EvUnlink _ => true | _ => false end.

Lemma rw_ret (P : event -> Prop) (Q : exc -> Prop) {A} (x : A) : runs_within P Q (ret x).
Proof.
  intros w. exists []. rewrite app_nil_r. simpl.
  split; [reflexivity | split; [constructor | discriminate]].
Qed.

Lemma rw_raise (P : event -> Prop) (Q : exc -> Prop) {A} (e : exc) : Q e -> runs_within P Q (@raise A e).
Proof.
  intros He w. exists []. rewrite app_nil_r. simpl.
  split; [reflexivity | split; [constructor | congruence]].
Qed.

Lemma rw_emit (P : event -> Prop) (Q : exc -> Prop) (ev : event) : P ev -> runs_within P Q (emit ev).
Proof.
  intros Hp w. exists [ev]. simpl.
  split; [reflexivity | split; [repeat constructor; assumption | discriminate]].
Qed.

Lemma rw_get_world (P : event -> Prop) (Q : exc -> Prop) : runs_within P Q get_world.
Proof.
  intros w. exists []. rewrite app_nil_r. simpl.
  split; [reflexivity | split; [constructor | discriminate]].
Qed.

Lemma rw_modify (P : event -> Prop) (Q : exc -> Prop) (f : world -> world) :
  (forall w, log (f w) = log w) -> runs_within P Q (modify f).
Proof.
  intros Hf w. exists []. rewrite app_nil_r. simpl.
  split; [apply Hf | split; [constructor | discriminate]].
Qed.

Lemma rw_lift_sum (P : event -> Prop) (Q : exc -> Prop) {A} (r : exc + A) :
  (forall e, r = inl e -> Q e) -> runs_within P Q (lift_sum r).
Proof.
  intros Hr w. exists []. rewrite app_nil_r. simpl.
  split; [reflexivity | split; [constructor | exact Hr]].
Qed.

Lemma rw_bind (P : event -> Prop) (Q : exc -> Prop) {A B} (m : PY A) (k : A -> PY B) :
  runs_within P Q m -> (forall x, runs_within P Q (k x)) ->
  runs_within P Q (bind m k).
Proof.
  intros Hm Hk w. unfold bind. destruct (Hm w) as (n1 & Hl1 & Hf1 & He1).
  destruct (m w) as [w1 [e|x]]; simpl in *.
  - exists n1. split; [exact Hl1 | split; [exact Hf1 |]].
    intros e' He'. apply He1. congruence.
  - destruct (Hk x w1) as (n2 & Hl2 & Hf2 & He2).
    exists (n1 ++ n2). split; [rewrite Hl2, Hl1, app_assoc; reflexivity |].
    split; [apply Forall_app; split; assumption | exact He2].
Qed.

Lemma rw_try_except (P : event -> Prop) (Q : exc -> Prop) {A} (Qm : exc -> Prop) (m : PY A) handled h :
  runs_within P Qm m ->
  (forall e, Qm e -> handled e = true -> runs_within P Q (h e)) ->
  (forall e, Qm e -> handled e = false -> Q e) ->
  runs_within P Q (try_except m handled h).
Proof.
  intros Hm Hh Hn w. unfold try_except.
  destruct (Hm w) as (n1 & Hl1 & Hf1 & He1).
  destruct (m w) as [w1 [e|x]]; simpl in *.
  - destruct (handled e) eqn:Hd.
    + destruct (Hh e (He1 e eq_refl) Hd w1) as (n2 & Hl2 & Hf2 & He2).
      exists (n1 ++ n2). split; [rewrite Hl2, Hl1, app_assoc; reflexivity |].
      split; [apply Forall_app; split; assumption | exact He2].
    + exists n1. split; [exact Hl1 | split; [exact Hf1 |]].
      intros e' He'. inversion He'; subst. apply Hn; auto.
  - exists n1. split; [exact Hl1 | split; [exact Hf1 | discriminate]].
Qed.

Lemma rw_try_finally (P : event -> Prop) (Q : exc -> Prop) {A} (m : PY A) (f : PY unit) :
  runs_within P Q m -> runs_within P Q f -> runs_within P Q (try_finally m f).
Proof.
  intros Hm Hf w. unfold try_finally.
  destruct (Hm w) as (n1 & Hl1 & Hf1 & He1).
  destruct (m w) as [w1 r]; simpl in *.
  destruct (Hf w1) as (n2 & Hl2 & Hf2 & He2).
  destruct (f w1) as [w2 [e|u]]; simpl in *;
    exists (n1 ++ n2); (split; [rewrite Hl2, Hl1, app_assoc; reflexivity |]);
    (split; [apply Forall_app; split; assumption |]).
  - intros e' He'. apply He2. congruence.
  - exact He1.
Qed.


Lemma rw_mono {A} (P P' : event -> Prop) (Q Q' : exc -> Prop) (m : PY A) :
  (forall ev, P ev -> P' ev) -> (forall e, Q e -> Q' e) ->
  runs_within P Q m -> runs_within P' Q' m.
Proof.
  intros HP HQ Hm w. destruct (Hm w) as (n & Hl & Hf & He).
  exists n. split; [exact Hl | split; [eapply Forall_impl; eauto | eauto]].
Qed.

Create HintDb runs.
Global Hint Resolve rw_ret rw_get_world : runs.

(** Decompose a program into the combinators above. *)
Ltac rw_solve :=
  repeat match goal with
  | |- runs_within _ _ (bind _ _) => apply rw_bind; [| intros ?]
  | |- runs_within _ _ (ret _) => apply rw_ret
  | |- runs_within _ _ get_world => apply rw_get_world
  | |- runs_within _ _ (raise _) => apply rw_raise
  | |- runs_within _ _ (emit _) => apply rw_emit
  | |- runs_within _ _ (modify _) => apply rw_modify; intros ?; reflexivity
  | |- runs_within _ _ (try_finally _ _) => apply rw_try_finally
  | |- runs_within _ _ (if ?b then _ else _) => destruct b
  | |- runs_within _ _ (match ?o with _ => _ end) => destruct o
  | |- runs_within _ _ _ => progress eauto with runs
  end.

Lemma rw_write_file (P : event -> Prop) (Q : exc -> Prop) p d :
  P (EvWrite p) -> Q (enoent p) -> runs_within P Q (write_file p d).
Proof. intros. unfold write_file. rw_solve; auto. Qed.

Lemma rw_read_file (P : event -> Prop) (Q : exc -> Prop) p : Q (enoent p) -> runs_within P Q (read_file p).
Proof. intros. unfold read_file. rw_solve; auto. Qed.

Lemma rw_path_exists (P : event -> Prop) (Q : exc -> Prop) p : runs_within P Q (path_exists p).
Proof. unfold path_exists. rw_solve. Qed.

Lemma rw_unlink (P : event -> Prop) (Q : exc -> Prop) p :
  P (EvUnlink p) -> Q (enoent p) -> runs_within P Q (unlink p).
Proof. intros. unfold unlink. rw_solve; auto. Qed.

Lemma rw_mkstemp_loop (P : event -> Prop) (Q : exc -> Prop) n suffix :
  (forall p, P (EvTempCreate p)) -> (forall p, Q (enoent p)) ->
  Q (Exc ExcFileExists "No usable temporary file name found") ->
  runs_within P Q (mkstemp_loop n suffix).
Proof.
  intros HP HQ HE. induction n as [|n IH]; cbn [mkstemp_loop]; rw_solve; auto.
Qed.

Lemma rw_named_temporary_file (P : event -> Prop) (Q : exc -> Prop) suffix :
  (forall p, P (EvTempCreate p)) -> (forall p, Q (enoent p)) ->
  Q (Exc ExcFileExists "No usable temporary file name found") ->
  runs_within P Q (named_temporary_file suffix).
Proof. intros. apply rw_mkstemp_loop; auto. Qed.

Lemma rw_cleanup_paths (P : event -> Prop) (Q : exc -> Prop) ps :
  (forall p, P (EvUnlink p)) -> runs_within P Q (cleanup_paths ps).
Proof.
  intros HP. induction ps as [|p ps IH]; simpl; rw_solve; auto.
  unfold cleanup_one. apply rw_bind; [apply rw_path_exists | intros []];
    [| apply rw_ret].
  eapply rw_try_except with (Qm := fun _ => True); auto.
  - apply rw_unlink; auto.
  - intros. apply rw_ret.
  - discriminate.
Qed.

Lemma rw_cleanup_paths_in (P : event -> Prop) (Q : exc -> Prop) ps :
  (forall p, In p ps -> P (EvUnlink p)) -> runs_within P Q (cleanup_paths ps).
Proof.
  induction ps as [|p ps IH]; intros HP; simpl; rw_solve; auto.
  - unfold cleanup_one. apply rw_bind; [apply rw_path_exists | intros []];
      [| apply rw_ret].
    eapply rw_try_except with (Qm := fun _ => True); auto.
    + apply rw_unlink; auto. apply HP. left. reflexivity.
    + intros. apply rw_ret.
    + discriminate.
  - apply IH. intros q Hq. apply HP. right. exact Hq.
Qed.

Global Hint Resolve rw_path_exists : runs.

Section ServiceRuns.

Context (O : oracles).

Lemma rw_from_file (P : event -> Prop) (Q : exc -> Prop) p fmt :
  P (EvDecode fmt p) -> Q (enoent p) ->
  Q (Exc ExcKey "'sample_width'") ->
  Q (Exc ExcCouldntDecode "Decoding failed. ffmpeg returned error code: 1") ->
  runs_within P Q (from_file O p fmt).
Proof. intros. unfold from_file. rw_solve; auto using rw_read_file. Qed.

Lemma rw_export (P : event -> Prop) (Q : exc -> Prop) s p fmt :
  P (EvExport p) -> P (EvWrite p) -> Q (enoent p) ->
  Q (Exc ExcCouldntEncode "Encoding failed") ->
  runs_within P Q (export O s p fmt).
Proof. intros. unfold export. rw_solve; auto using rw_write_file. Qed.

Lemma rw_record_audio_file (P : event -> Prop) (Q : exc -> Prop) p :
  P (EvOpenAudio p) -> Q (enoent p) ->
  Q (Exc ExcValue "Audio file could not be read as PCM WAV, AIFF/AIFF-C, or Native FLAC; check if file is corrupted or in another format") ->
  runs_within P Q (record_audio_file O p).
Proof. intros. unfold record_audio_file. rw_solve; auto using rw_read_file. Qed.

Lemma rw_try_formats (P : event -> Prop) (Q : exc -> Prop) raw fmts :
  (forall f, P (EvDecode f raw)) -> runs_within P Q (try_formats O raw fmts).
Proof.
  intros HP. induction fmts as [|f fmts IH]; simpl; rw_solve.
  eapply rw_try_except with (Qm := fun _ => True); auto.
  - rw_solve. apply rw_from_file; auto.
  - intros. apply rw_ret.
  - discriminate.
Qed.

Lemma rw_convert_to_wav (P : event -> Prop) (Q : exc -> Prop) t b :
  (forall p, P (EvWrite p)) -> (forall f p, P (EvDecode f p)) ->
  (forall p, P (EvExport p)) -> Q (enoent t) ->
  runs_within P Q (convert_to_wav O t b).
Proof.
  intros HW HD HX HQ. unfold convert_to_wav.
  eapply rw_try_except with (Qm := fun _ => True); auto.
  - rw_solve; auto using rw_write_file, rw_try_formats, rw_export.
  - intros. apply rw_write_file; auto.
  - discriminate.
Qed.

End ServiceRuns.

Lemma bind_ret_l {A B} (x : A) (k : A -> PY B) : bind (ret x) k = k x.
Proof. reflexivity. Qed.

Lemma bind_raise_l {A B} (e : exc) (k : A -> PY B) : bind (raise e) k = raise e.
Proof. reflexivity. Qed.

Lemma Qltb_iff (a b : Q) : Qltb a b = true <-> (a < b)%Q.
Proof.
  unfold Qltb. rewrite negb_true_iff. split.
  - intros H. apply Qnot_le_lt. intros Hle. apply Qle_bool_iff in Hle. congruence.
  - intros H. destruct (Qle_bool b a) eqn:E; [| reflexivity].
    apply Qle_bool_iff in E. exfalso. apply (Qlt_not_le a b); assumption.
Qed.

Lemma Qltb_false_iff (a b : Q) : Qltb a b = false <-> (b <= a)%Q.
Proof.
  unfold Qltb. rewrite negb_false_iff. apply Qle_bool_iff.
Qed.

Lemma Qle_bool_false_iff (a b : Q) : Qle_bool a b = false <-> (b < a)%Q.
Proof.
  split.
  - intros H. apply Qnot_le_lt. intros Hle. apply Qle_bool_iff in Hle. congruence.
  - intros H. destruct (Qle_bool a b) eqn:E; [| reflexivity].
    apply Qle_bool_iff in E. exfalso. apply (Qlt_not_le b a); assumption.
Qed.

Lemma Qeq_bool_false_lt (a b : Q) : (a < b)%Q -> Qeq_bool a b = false.
Proof.
  intros H. destruct (Qeq_bool a b) eqn:E; [| reflexivity].
  apply Qeq_bool_iff in E. rewrite E in H. exfalso. apply (Qlt_irrefl b H).
Qed.

Section TextToSpeechRuns.

Context (O : oracles).

Lemma rw_gTTS_save (P : event -> Prop) (Q : exc -> Prop) t p :
  P (EvWrite p) -> P (EvTts (tts_lang t) (tts_slow t)) -> Q (enoent p) ->
  Q (Exc ExcGTTS "Failed to connect. Probable cause: Unknown") ->
  runs_within P Q (gTTS_save O t p).
Proof. intros. unfold gTTS_save. rw_solve; auto using rw_write_file. Qed.

(** Below [0.8] the adjustment step never calls [speedup]. *)
Lemma adjust_and_export_no_speedup (P : event -> Prop) tmp path s :
  (s < 4 # 5)%Q -> (forall ev, plain_tts_event ev -> P ev) ->
  runs_within P (fun _ => True) (adjust_and_export O tmp path s).
Proof.
  intros Hs HP. unfold adjust_and_export.
  assert (H1 : Qeq_bool s 1 = false).
  { apply Qeq_bool_false_lt. apply Qlt_trans with (4 # 5); [exact Hs | reflexivity]. }
  assert (H2 : Qltb 1 s = false).
  { apply Qltb_false_iff. apply Qlt_le_weak. apply Qlt_trans with (4 # 5); [exact Hs | reflexivity]. }
  assert (H3 : Qle_bool (4 # 5) s = false) by (apply Qle_bool_false_iff; exact Hs).
  rewrite H1, H2, H3. simpl negb.
  destruct (Qltb s 1); rw_solve; auto;
    first [apply rw_from_file | apply rw_export]; auto; apply HP; exact I.
Qed.

End TextToSpeechRuns.

Lemma recognize_spec (O : oracles) audio lang w :
  recognize O audio lang w = (push_log w (rec_new O audio lang), rec_res O audio lang).
Proof.
  unfold recognize, rec_new, rec_res, recognize_google_call, recognize_sphinx_call,
    push_log, try_except, bind, emit, rec_result, ret, raise, is_class; cbn zeta.
  destruct (recognize_google O audio lang); cbn; try reflexivity.
  destruct (recognize_sphinx O audio "en-US"); cbn; rewrite <- app_assoc; reflexivity.
Qed.

Lemma bind_step {A B} (m : PY A) (k : A -> PY B) w w1 x :
  m w = (w1, inr x) -> bind m k w = k x w1.
Proof. intros H. unfold bind. rewrite H. reflexivity. Qed.

Lemma bind_stop {A B} (m : PY A) (k : A -> PY B) w w1 e :
  m w = (w1, inl e) -> bind m k w = (w1, inl e).
Proof. intros H. unfold bind. rewrite H. reflexivity. Qed.

Lemma try_except_step {A} (m : PY A) handled h w w1 x :
  m w = (w1, inr x) -> try_except m handled h w = (w1, inr x).
Proof. intros H. unfold try_except. rewrite H. reflexivity. Qed.

Lemma try_except_catch {A} (m : PY A) handled h w w1 e :
  m w = (w1, inl e) -> handled e = true -> try_except m handled h w = h e w1.
Proof. intros H Hh. unfold try_except. rewrite H, Hh. reflexivity. Qed.

Lemma String_append_inj_l (p x y : string) :
  (p ++ x)%string = (p ++ y)%string -> x = y.
Proof. induction p as [|c p IH]; simpl; [auto | intros H; injection H; auto]. Qed.

Lemma nonrec_no_speech ev : nonrec ev -> ~ reports_no_speech ev.
Proof. unfold nonrec. destruct ev as [| | | | ? [] | ? [] | | | |]; simpl; congruence || tauto. Qed.

Section Recognition.

Context (O : oracles).

Lemma reaches_recognize audio lang : reaches_recognition O lang (recognize O audio lang).
Proof.
  intros w. exists (rec_new O audio lang). rewrite recognize_spec. simpl.
  split; [reflexivity |]. right. exists audio, [], [].
  rewrite app_nil_r. repeat split; constructor.
Qed.

Lemma reaches_bind {A} lang (m : PY A) (k : A -> PY (string * Q)) :
  runs_within nonrec ordinary_exc m -> (forall x, reaches_recognition O lang (k x)) ->
  reaches_recognition O lang (bind m k).
Proof.
  intros Hm Hk w. unfold bind. destruct (Hm w) as (n1 & Hl1 & Hf1 & He1).
  destruct (m w) as [w1 [e|x]]; simpl in *.
  - exists n1. split; [exact Hl1 |]. left. split; [exact Hf1 |]. eauto.
  - destruct (Hk x w1) as (n2 & Hl2 & [[Hf2 (e & Hr & Ho)] | (a & pre & post & Hpre & Hpost & Hn & Hr)]).
    + exists (n1 ++ n2). rewrite Hl2, Hl1, app_assoc. split; [reflexivity |].
      left. split; [apply Forall_app; auto | eauto].
    + exists (n1 ++ n2). rewrite Hl2, Hl1, app_assoc. split; [reflexivity |].
      right. exists a, (n1 ++ pre), post. subst n2.
      repeat split; [apply Forall_app; auto | exact Hpost | rewrite app_assoc; reflexivity | exact Hr].
Qed.

Lemma reaches_try_finally lang (m : PY (string * Q)) (f : PY unit) :
  reaches_recognition O lang m -> runs_within nonrec (fun _ => False) f ->
  reaches_recognition O lang (try_finally m f).
Proof.
  intros Hm Hf w. unfold try_finally.
  destruct (Hm w) as (n1 & Hl1 & Hcase).
  destruct (m w) as [w1 r]; simpl in *.
  destruct (Hf w1) as (n2 & Hl2 & Hf2 & He2).
  destruct (f w1) as [w2 [e|u]]; simpl in *; [destruct (He2 e eq_refl) |].
  exists (n1 ++ n2). rewrite Hl2, Hl1, app_assoc. split; [reflexivity |].
  destruct Hcase as [[Hf1 (e & Hr & Ho)] | (a & pre & post & Hpre & Hpost & Hn & Hr)].
  - left. split; [apply Forall_app; auto | eauto].
  - right. exists a, pre, (post ++ n2). subst n1.
    repeat split; [exact Hpre | apply Forall_app; auto | | exact Hr].
    rewrite <- !app_assoc. simpl. rewrite <- ?app_assoc. reflexivity.
Qed.

End Recognition.

Lemma a2b_base64_loop_ordinary s q l p out e :
  a2b_base64_loop s q l p out = inl e -> ordinary_exc e.
Proof.
  revert q l p out. induction s as [|c s IH]; intros q l p out H; simpl in H.
  - destruct (q =? 0)%Z; [discriminate |].
    destruct (q =? 1)%Z; injection H as <-;
      (split; [discriminate | split; [discriminate | simpl; discriminate]]).
  - repeat match type of H with
    | context [if ?b then _ else _] => destruct b
    | context [match ?o with _ => _ end] => destruct o
    end; try discriminate; eauto.
Qed.

Lemma b64decode_ordinary s e : b64decode s = inl e -> ordinary_exc e.
Proof.
  unfold b64decode. destruct (is_ascii_str s).
  - apply a2b_base64_loop_ordinary.
  - intros H. injection H as <-. split; [discriminate | split; [discriminate | discriminate]].
Qed.

Lemma enoent_ordinary p : ordinary_exc (enoent p).
Proof. split; [discriminate | split; [discriminate | simpl; discriminate]]. Qed.

Lemma nonrec_app_iff (Pr : event -> Prop) pre mid post :
  Forall nonrec pre -> Forall nonrec post ->
  (forall ev, Pr ev -> is_rec_call ev = true) ->
  Exists Pr (pre ++ mid ++ post) <-> Exists Pr mid.
Proof.
  intros Hpre Hpost HP. rewrite !Exists_app. split.
  - intros [Hx | [Hx | Hx]]; [| exact Hx |]; exfalso;
      [revert Hx; induction Hpre | revert Hx; induction Hpost]; intros Hx;
      inversion Hx; subst; eauto;
      match goal with Hx : Pr ?x, Hn : nonrec ?x |- _ =>
        apply HP in Hx; unfold nonrec in Hn; congruence end.
  - auto.
Qed.

Section VoiceToText.

Context (O : oracles).

Lemma voice_to_text_body_reaches audio_data language :
  reaches_recognition O (_get_recognition_language_code language)
    (let! audio_bytes := lift_sum (b64decode audio_data) in
     let! temp_file_path := named_temporary_file ".wav" in
     try_finally
       (convert_to_wav O temp_file_path audio_bytes ;;;
        let! audio := record_audio_file O temp_file_path in
        let recognition_language := _get_recognition_language_code language in
        recognize O audio recognition_language)
       (cleanup_paths [temp_file_path; str_replace temp_file_path ".wav" ".raw"])).
Proof.
  apply reaches_bind; [apply rw_lift_sum, b64decode_ordinary | intros b].
  apply reaches_bind.
  { apply rw_named_temporary_file; [reflexivity | apply enoent_ordinary |].
    split; [discriminate | split; [discriminate | discriminate]]. }
  intros t. apply reaches_try_finally.
  - apply reaches_bind.
    { apply rw_convert_to_wav; try reflexivity. apply enoent_ordinary. }
    intros _. apply reaches_bind.
    { apply rw_record_audio_file; [reflexivity | apply enoent_ordinary |].
      split; [discriminate | split; [discriminate | discriminate]]. }
    intros a. apply reaches_recognize.
  - apply rw_cleanup_paths. reflexivity.
Qed.

End VoiceToText.

Lemma nonrec_not_exists (Pr : event -> Prop) l :
  (forall ev, Pr ev -> is_rec_call ev = true) -> Forall nonrec l -> ~ Exists Pr l.
Proof.
  intros HP Hf Hx. apply Exists_exists in Hx as (x & Hin & Hx).
  rewrite Forall_forall in Hf. specialize (Hf x Hin). apply HP in Hx.
  unfold nonrec in Hf. congruence.
Qed.

Lemma no_speech_rec ev : reports_no_speech ev -> is_rec_call ev = true.
Proof. destruct ev as [| | | | ? [] | ? [] | | | |]; simpl; tauto. Qed.

Lemma google_unreachable_rec ev : google_unreachable ev -> is_rec_call ev = true.
Proof. intros (l & m & ->). reflexivity. Qed.

Lemma sphinx_unreachable_rec ev : sphinx_unreachable ev -> is_rec_call ev = true.
Proof. intros (l & m & ->). reflexivity. Qed.

Lemma handled_error_kinds (O : oracles) lang (m : PY (string * Q)) w :
  reaches_recognition O lang m ->
  exists new,
    log (fst (try_except m any_exception voice_to_text_handler w)) = log w ++ new /\
    (snd (try_except m any_exception voice_to_text_handler w) = inl unintelligible_error <->
       Exists reports_no_speech new) /\
    (snd (try_except m any_exception voice_to_text_handler w) = inl service_unavailable_error <->
       Exists google_unreachable new /\ Exists sphinx_unreachable new).
Proof.
  intros Hm. unfold try_except.
  destruct (Hm w) as (new & Hl & [[Hf (e & Hr & Ho)] | (a & pre & post & Hpre & Hpost & Hn & Hr)]);
    destruct (m w) as [w1 r]; simpl in Hl, Hr; subst r; exists new; simpl.
  - destruct Ho as (H1 & H2 & H3). unfold voice_to_text_handler.
    destruct (exc_cls e); try congruence; simpl; (split; [exact Hl |]); split.
    all: split; [intros Heq; injection Heq; intros Hs; exfalso |
                 intros Hx; exfalso;
                 first [ apply (nonrec_not_exists _ new no_speech_rec Hf Hx)
                       | destruct Hx as [Hx _];
                         apply (nonrec_not_exists _ new google_unreachable_rec Hf Hx) ] ].
    all: first [ discriminate | apply H3; simpl in Hs; exact Hs ].
  - assert (Hlog : forall r, log (fst (match r with
                                       | inl e => voice_to_text_handler e w1
                                       | inr a => (w1, inr a) end)) = log w1).
    { intros [e | x]; [unfold voice_to_text_handler; destruct (exc_cls e) |]; reflexivity. }
    rewrite Hlog. split; [exact Hl |]. subst new.
    rewrite !(nonrec_app_iff _ pre _ post Hpre Hpost no_speech_rec),
      (nonrec_app_iff _ pre _ post Hpre Hpost google_unreachable_rec),
      (nonrec_app_iff _ pre _ post Hpre Hpost sphinx_unreachable_rec).
    unfold rec_res, rec_new.
    destruct (recognize_google O a lang) as [t | | mg]; simpl;
      [| | destruct (recognize_sphinx O a "en-US") as [t' | | ms]; simpl].
    all: split; split; intros Hx;
      repeat match goal with
      | H : Exists _ [] |- _ => inversion H
      | H : Exists _ (_ :: _) |- _ => inversion H; subst; clear H
      | H : _ /\ _ |- _ => destruct H
      | H : google_unreachable _ |- _ => destruct H as (? & ? & ?)
      | H : sphinx_unreachable _ |- _ => destruct H as (? & ? & ?)
      end;
      try discriminate; try contradiction; try reflexivity;
      try (split; [constructor; exists lang, mg; reflexivity
                  | constructor 2; constructor; exists "en-US", ms; reflexivity]);
      try (constructor; exact I); try (constructor 2; constructor; exact I).
Qed.



Lemma voice_to_text_handler_world e w : fst (voice_to_text_handler e w) = w.
Proof. unfold voice_to_text_handler. destruct (exc_cls e); reflexivity. Qed.

Lemma rec_calls_nonrec l : Forall nonrec l -> rec_calls l = [].
Proof.
  induction 1 as [| x l Hx _ IH]; [reflexivity |].
  unfold rec_calls in *. unfold nonrec in Hx.
  rewrite filter_cons_False; [exact IH | rewrite Hx; auto].
Qed.

Lemma rec_calls_app l1 l2 : rec_calls (l1 ++ l2) = rec_calls l1 ++ rec_calls l2.
Proof.
  unfold rec_calls. apply filter_app.
Qed.

Lemma rec_calls_rec_new O audio lang : rec_calls (rec_new O audio lang) = rec_new O audio lang.
Proof. unfold rec_new. destruct (is_request_error _); reflexivity. Qed.



Lemma bind_inr_inv {A B} (m : PY A) (k : A -> PY B) w w' y :
  bind m k w = (w', inr y) -> exists w1 x, m w = (w1, inr x) /\ k x w1 = (w', inr y).
Proof.
  unfold bind. destruct (m w) as [w1 [e|x]]; [discriminate | eauto].
Qed.

Lemma try_finally_inr_inv {A} (m : PY A) f w w' y :
  try_finally m f w = (w', inr y) -> exists w1, m w = (w1, inr y).
Proof.
  unfold try_finally. destruct (m w) as [w1 r].
  destruct (f w1) as [w2 [e|u]]; [discriminate |]. intros H. injection H as _ ->. eauto.
Qed.

Lemma lift_sum_inr_inv {A} (r : exc + A) w w' y :
  lift_sum r w = (w', inr y) -> r = inr y.
Proof. unfold lift_sum. intros H. injection H as _ ->. reflexivity. Qed.

Lemma from_file_world (O : oracles) p fmt w :
  fst (from_file O p fmt w) = push_log w [EvDecode fmt p].
Proof.
  destruct w as [f d t r l].
  unfold from_file, read_file, emit, get_world, push_log, ret, raise, bind. simpl.
  destruct (f !! p) as [b|]; simpl; repeat case_match; reflexivity.
Qed.

Lemma try_formats_step (O : oracles) raw f fmts w :
  try_formats O raw (f :: fmts) w =
    match snd (from_file O raw f w) with
    | inr s => (push_log w [EvDecode f raw], inr (Some s))
    | inl _ => try_formats O raw fmts (push_log w [EvDecode f raw])
    end.
Proof.
  rewrite <- (from_file_world O raw f w). simpl.
  unfold bind at 1, try_except, bind at 1.
  destruct (from_file O raw f w) as [w1 [e|s]]; reflexivity.
Qed.

Lemma text_to_speech_gtts_failure_run (O : oracles) text language voice_speed w w1 p :
  String.eqb text "" = false ->
  tts_supported O (_fallback_deprecated_lang (_get_tts_language_code language)) = true ->
  tts_fetch O text (_fallback_deprecated_lang (_get_tts_language_code language)) (Qltb voice_speed (4 # 5)) = None ->
  named_temporary_file ".mp3" w = (w1, inr p) ->
  dir_exists (dirname p) w1 = true ->
  text_to_speech O text language voice_speed w =
    (push_log (set_fs (<[p := []]> (fs w1)) w1)
       [EvWrite p; EvTts (_fallback_deprecated_lang (_get_tts_language_code language)) (Qltb voice_speed (4 # 5))],
     inl (Exc ExcException
            "Text to speech conversion failed: Failed to connect. Probable cause: Unknown")).
Proof.
  intros Ht Hs Hf Hn Hd.
  set (l := _fallback_deprecated_lang (_get_tts_language_code language)) in *.
  set (slow := Qltb voice_speed (4 # 5)) in *.
  unfold text_to_speech, gTTS_new. cbv zeta. fold l. fold slow. rewrite Ht, Hs.
  unfold try_except. cbv zeta iota beta. rewrite bind_ret_l.
  rewrite (bind_step _ _ w w1 p Hn).
  unfold gTTS_save, write_file, get_world, modify, emit, raise, bind.
  cbn [tts_text tts_lang tts_slow]. rewrite Hd, Hf.
  unfold any_exception, push_log, set_fs. cbn. rewrite <- app_assoc. reflexivity.
Qed.

Lemma string_length_app (z s : string) :
  String.length (z ++ s)%string = (String.length z + String.length s)%nat.
Proof. induction z as [|c z IH]; simpl; [reflexivity | rewrite IH; reflexivity]. Qed.

Lemma substring_app_suffix (z s : string) :
  substring (String.length z) (String.length s) (z ++ s)%string = s.
Proof.
  induction z as [|c z IH]; simpl; [| exact IH].
  change (substring 0 (String.length s) s = s). clear. induction s as [|c s IH]; simpl; [reflexivity | rewrite IH; reflexivity].
Qed.

Lemma endswith_app (z s : string) : endswith s (z ++ s)%string = true.
Proof.
  unfold endswith. rewrite string_length_app.
  replace (String.length z + String.length s - String.length s)%nat
    with (String.length z) by lia.
  rewrite substring_app_suffix, String.eqb_refl.
  apply andb_true_intro. split; [apply Nat.leb_le; lia | reflexivity].
Qed.

Lemma endswith_raw_not_wav (z : string) : endswith ".wav" (z ++ ".raw")%string = false.
Proof.
  unfold endswith. rewrite string_length_app.
  replace (String.length z + String.length ".raw" - String.length ".wav")%nat
    with (String.length z) by (simpl; lia).
  change (String.length ".wav") with (String.length ".raw").
  rewrite substring_app_suffix. apply andb_false_r.
Qed.


Lemma string_app_cons (c : ascii) (s t : string) :
  (String c s ++ t)%string = String c (s ++ t).
Proof. reflexivity. Qed.

Lemma string_app_nil (t : string) : ("" ++ t)%string = t.
Proof. reflexivity. Qed.

(** ".wav" has no proper border, so an occurrence at the head of
    [x ++ ".wav"] lies inside [x] when [x] is not empty. *)
Lemma startswith_wav_app (x : string) :
  x <> "" -> startswith ".wav" (x ++ ".wav")%string = true ->
  exists x', x = (".wav" ++ x')%string.
Proof.
  intros Hx H.
  destruct x as [|a [|b [|c [|d x']]]]; [congruence | | | |];
    rewrite ?string_app_cons, ?string_app_nil in H; cbn [startswith] in H;
    repeat match type of H with
    | context [Ascii.eqb ?u ?v] =>
        let E := fresh "E" in
        destruct (Ascii.eqb u v) eqn:E;
        [apply Ascii.eqb_eq in E; first [discriminate E | subst] |]
    end; try (cbn in H; discriminate H).
  exists x'. reflexivity.
Qed.

Lemma substring_0_full (s : string) : substring 0 (String.length s) s = s.
Proof. induction s as [|c s IH]; simpl; [reflexivity | rewrite IH; reflexivity]. Qed.

Lemma string_app_assoc (a b c : string) : (a ++ (b ++ c) = (a ++ b) ++ c)%string.
Proof. induction a as [|x a IH]; [reflexivity | rewrite !string_app_cons, IH; reflexivity]. Qed.

Lemma str_replace_fuel_wav (fuel : nat) (x : string) :
  (String.length (x ++ ".wav")%string <= fuel)%nat ->
  exists y, str_replace_fuel fuel ".wav" ".raw" (x ++ ".wav")%string = (y ++ ".raw")%string.
Proof.
  revert x. induction fuel as [|f IH]; intros x Hl.
  { rewrite string_length_app in Hl. simpl in Hl. lia. }
  destruct (startswith ".wav" (x ++ ".wav")) eqn:Hs.
  - destruct (String.eqb_spec x "") as [-> | Hx].
    + exists "". destruct f; reflexivity.
    + destruct (startswith_wav_app x Hx Hs) as [x' ->].
      rewrite <- string_app_assoc in Hl, Hs |- *.
      set (r := (x' ++ ".wav")%string) in *.
      change (".wav" ++ r)%string
        with (String "." (String "w" (String "a" (String "v" r)))) in Hl, Hs |- *.
      cbn [str_replace_fuel]. rewrite Hs.
      cbn [String.length substring Nat.sub]. rewrite Nat.sub_0_r, substring_0_full.
      destruct (IH x') as [y Hy]; [change (String.length r <= f)%nat; cbn [String.length] in Hl; lia |].
      fold r in Hy. rewrite Hy. exists (".raw" ++ y)%string.
      rewrite string_app_assoc. reflexivity.
  - destruct x as [|c x0].
    + vm_compute in Hs. discriminate Hs.
    + rewrite string_app_cons in Hl, Hs |- *. cbn [str_replace_fuel]. rewrite Hs.
      destruct (IH x0) as [y Hy]; [cbn [String.length] in Hl; lia |].
      rewrite Hy. exists (String c y). reflexivity.
Qed.

(** The raw sibling [t.replace('.wav', '.raw')] of a [.wav] name ends in
    [.raw]. *)
Lemma raw_name_ends_raw (x : string) :
  exists y, str_replace (x ++ ".wav")%string ".wav" ".raw" = (y ++ ".raw")%string.
Proof. apply str_replace_fuel_wav. reflexivity. Qed.


Lemma bind_apply {A B} (m : PY A) (k : A -> PY B) w :
  bind m k w = match m w with (w1, inl e) => (w1, inl e) | (w1, inr x) => k x w1 end.
Proof. reflexivity. Qed.







Lemma write_file_run p d w :
  dir_exists (dirname p) w = true ->
  write_file p d w = (push_log (set_fs (<[p := d]> (fs w)) w) [EvWrite p], inr tt).
Proof.
  intros H. destruct w as [f ds t r l].
  unfold write_file, get_world, modify, emit, bind, ret. rewrite H. reflexivity.
Qed.


Lemma try_except_inr_inv {A} (m : PY A) handled h w w' y :
  (forall e w0, exists w2 e2, h e w0 = (w2, inl e2)) ->
  try_except m handled h w = (w', inr y) -> m w = (w', inr y).
Proof.
  intros Hh. unfold try_except. destruct (m w) as [w1 [e|x]]; [| auto].
  destruct (handled e); [| discriminate].
  destruct (Hh e w1) as (w2 & e2 & ->). discriminate.
Qed.

Lemma speedup_call_inr_inv a s w w' b :
  speedup_call a s w = (w', inr b) -> speedup a s = inr b.
Proof.
  unfold speedup_call. intros H. apply bind_inr_inv in H as (w1 & [] & _ & H).
  eapply lift_sum_inr_inv; exact H.
Qed.

Lemma write_file_inr p d w w' u :
  write_file p d w = (w', inr u) -> fs w' !! p = Some d.
Proof.
  unfold write_file, bind, get_world, modify, emit, raise, ret.
  destruct (dir_exists (dirname p) w); intros H; [| discriminate].
  injection H as <- _. cbn. apply lookup_insert_eq.
Qed.

Lemma from_file_inr (O : oracles) p fmt w w' a :
  from_file O p fmt w = (w', inr a) ->
  exists data, fs w !! p = Some data /\ decode O fmt data = Some a.
Proof.
  destruct w as [f ds t r l].
  unfold from_file, read_file, emit, get_world, bind, ret, raise. cbn -[is_format].
  destruct (f !! p) as [data|]; cbn -[is_format]; [| discriminate].
  destruct (_ && _); [discriminate |].
  destruct (decode O fmt data) eqn:D; [| discriminate].
  intros H. injection H as _ <-. eauto.
Qed.

Lemma gTTS_new_inr (O : oracles) text lang slow w w' t :
  gTTS_new O text lang slow w = (w', inr t) ->
  t = mkGTTS text (_fallback_deprecated_lang lang) slow.
Proof.
  unfold gTTS_new, raise, ret.
  destruct (String.eqb text ""); [discriminate |]. cbv zeta.
  destruct (tts_supported O (_fallback_deprecated_lang lang)); [| discriminate]. congruence.
Qed.

Lemma gTTS_save_inr (O : oracles) t p w w' u :
  gTTS_save O t p w = (w', inr u) ->
  exists b, tts_fetch O (tts_text t) (tts_lang t) (tts_slow t) = Some b /\
    fs w' !! p = Some b.
Proof.
  unfold gTTS_save. intros H.
  apply bind_inr_inv in H as (w1 & [] & _ & H).
  apply bind_inr_inv in H as (w2 & [] & _ & H).
  destruct (tts_fetch O (tts_text t) (tts_lang t) (tts_slow t)) as [b|]; [| discriminate].
  apply write_file_inr in H. eauto.
Qed.

Lemma adjust_and_export_speedup (O : oracles) tmp path s w w' d :
  (4 # 5 <= s)%Q -> (s <= 2)%Q -> ~ (s == 1)%Q ->
  adjust_and_export O tmp path s w = (w', inr d) ->
  exists data base out, fs w !! tmp = Some data /\ decode O "mp3" data = Some base /\
    speedup base s = inr out /\ d = (inject_Z (seg_ms out) / 1000)%Q.
Proof.
  intros Hlo _ Hne H. unfold adjust_and_export in H.
  assert (Hq : Qeq_bool s 1 = false).
  { destruct (Qeq_bool s 1) eqn:E; [| reflexivity]. apply Qeq_bool_iff in E. contradiction. }
  rewrite Hq in H. simpl negb in H. cbv iota in H.
  apply bind_inr_inv in H as (w1 & base & Hb & H).
  apply from_file_inr in Hb as (data & Hdata & Hdec).
  apply bind_inr_inv in H as (w2 & out & Hout & H).
  apply bind_inr_inv in H as (w3 & [] & _ & H).
  unfold ret in H. injection H as _ <-.
  exists data, base, out. split; [exact Hdata | split; [exact Hdec | split; [| reflexivity]]].
  destruct (Qltb 1 s) eqn:E1; [eapply speedup_call_inr_inv; exact Hout |].
  assert (E2 : Qltb s 1 = true).
  { apply Qltb_iff. apply Qltb_false_iff in E1.
    apply Qle_lteq in E1 as [E1 | E1]; [exact E1 | contradiction]. }
  assert (E3 : Qle_bool (4 # 5) s = true) by (apply Qle_bool_iff; exact Hlo).
  rewrite E2, E3 in Hout. eapply speedup_call_inr_inv; exact Hout.
Qed.

(* ================================================================== *)
(** * The claims *)

(** C1: a failure of the gTTS request in [text_to_speech] leaves the
    temporary [.mp3] file on disk: [tts.save] runs outside the
    [try/finally] that removes it, and [NamedTemporaryFile(delete=False)]
    does not remove it either. *)
Theorem text_to_speech_leaks_temp_on_gtts_failure (O : oracles) text language voice_speed w w1 p :
  String.eqb text "" = false ->
  tts_supported O (_fallback_deprecated_lang (_get_tts_language_code language)) = true ->
  tts_fetch O text (_fallback_deprecated_lang (_get_tts_language_code language)) (Qltb voice_speed (4 # 5)) = None ->
  named_temporary_file ".mp3" w = (w1, inr p) ->
  dir_exists (dirname p) w1 = true ->
  (exists e, snd (text_to_speech O text language voice_speed w) = inl e) /\
  fs (fst (text_to_speech O text language voice_speed w)) !! p = Some [].
Proof.
  intros Ht Hs Hf Hn Hd.
  rewrite (text_to_speech_gtts_failure_run O text language voice_speed w w1 p Ht Hs Hf Hn Hd).
  split; [eexists; reflexivity | apply lookup_insert_eq].
Qed.

Lemma text_to_speech_leaks_temp_on_gtts_failure_witness :
  (exists e, snd (text_to_speech
                    (sample_oracles (fun _ => None) None (RecText "") (RecText "") None)
                    "hello" "en" 1 sample_world) = inl e) /\
  fs (fst (text_to_speech
             (sample_oracles (fun _ => None) None (RecText "") (RecText "") None)
             "hello" "en" 1 sample_world)) !! "/tmp/tmpaaaaaaaa.mp3" = Some [].
Proof.
  apply (text_to_speech_leaks_temp_on_gtts_failure _ "hello" "en" 1 sample_world
           (fst (named_temporary_file ".mp3" sample_world)) "/tmp/tmpaaaaaaaa.mp3");
    vm_compute; reflexivity.
Defined.



(** C3: both language-code conversions always succeed and return the table
    value of a code in their table; for a code outside its table the
    recognition conversion returns ["en-US"] and the synthesis conversion
    the code itself. *)
Theorem language_codes_fallback :
  (forall l v, recognition_mapping !! l = Some v -> _get_recognition_language_code l = v) /\
  (forall l, recognition_mapping !! l = None -> _get_recognition_language_code l = "en-US") /\
  (forall l v, tts_mapping !! l = Some v -> _get_tts_language_code l = v) /\
  (forall l, tts_mapping !! l = None -> _get_tts_language_code l = l).
Proof.
  unfold _get_recognition_language_code, _get_tts_language_code.
  repeat split; intros l; [intros v H | intros H | intros v H | intros H]; rewrite H; reflexivity.
Qed.

(** C3: an unknown code is not passed through by the recognition
    conversion. *)
Lemma recognition_code_unknown_defaults :
  _get_recognition_language_code "xx" = "en-US" /\ "en-US" <> "xx".
Proof. split; [vm_compute; reflexivity | discriminate]. Qed.

(** C4: with Google unreachable and language ["hi"], Google gets
    ["hi-IN"] and the single Sphinx retry gets ["en-US"], not ["hi"]. *)
Lemma sphinx_gets_default_language :
  rec_calls (log (fst (voice_to_text
    (sample_oracles (fun _ => None) (Some [1]) (RecRequestError "unreachable")
       (RecText "namaste") None) "aGVsbG8=" "hi" sample_world))) =
  [EvGoogle "hi-IN" (RecRequestError "unreachable"); EvSphinx "en-US" (RecText "namaste")].
Proof. vm_compute. reflexivity. Qed.

(** C4 (amended): a [voice_to_text] run calls the recognition backends at
    most once each: none at all when it stops before recognition, else
    Google once with the mapped language code and, only when Google is
    unreachable, Sphinx once with its default language ["en-US"]. *)
Theorem voice_to_text_single_fallback (O : oracles) audio_data language w :
  exists new,
    log (fst (voice_to_text O audio_data language w)) = log w ++ new /\
    (rec_calls new = [] \/
     exists audio,
       let lang := _get_recognition_language_code language in
       let g := recognize_google O audio lang in
       rec_calls new =
         EvGoogle lang g ::
           (if is_request_error g
            then [EvSphinx "en-US" (recognize_sphinx O audio "en-US")] else [])).
Proof.
  destruct (voice_to_text_body_reaches O audio_data language w)
    as (new & Hl & [[Hf _] | (a & pre & post & Hpre & Hpost & Hn & _)]);
    exists new; unfold voice_to_text, try_except;
    match goal with |- context [match ?r with _ => _ end] =>
      destruct r as [w1 [e | x]] eqn:E end;
    simpl in Hl; unfold any_exception; rewrite ?voice_to_text_handler_world;
    (split; [exact Hl |]).
  1, 2: left; apply rec_calls_nonrec; exact Hf.
  1, 2: right; exists a; subst new;
        rewrite !rec_calls_app, (rec_calls_nonrec pre Hpre), (rec_calls_nonrec post Hpost),
          rec_calls_rec_new, app_nil_r; reflexivity.
Qed.

(** C5: [voice_to_text] fails with "Could not understand the audio"
    exactly when a recognition backend reported no speech, and with the
    unavailability failure exactly when both backends were unreachable;
    the two failures are distinct exceptions. *)
Theorem voice_to_text_error_kinds (O : oracles) audio_data language w :
  exists new,
    log (fst (voice_to_text O audio_data language w)) = log w ++ new /\
    (snd (voice_to_text O audio_data language w) = inl unintelligible_error <->
       Exists reports_no_speech new) /\
    (snd (voice_to_text O audio_data language w) = inl service_unavailable_error <->
       Exists google_unreachable new /\ Exists sphinx_unreachable new) /\
    unintelligible_error <> service_unavailable_error.
Proof.
  destruct (handled_error_kinds O _ _ w (voice_to_text_body_reaches O audio_data language))
    as (new & H1 & H2 & H3).
  exists new. unfold voice_to_text.
  split; [exact H1 | split; [exact H2 | split; [exact H3 | discriminate]]].
Qed.

(** C6: for every speed in [0.8, 2.0] other than 1.0, a successful
    [text_to_speech] decodes the MP3 bytes that gTTS fetched, applies
    pydub's [speedup] to that audio, and returns as duration the length, in
    seconds, of what [speedup] made of it. *)
Theorem text_to_speech_duration_after_speedup (O : oracles) text language s w w' path d :
  (4 # 5 <= s)%Q -> (s <= 2)%Q -> ~ (s == 1)%Q ->
  text_to_speech O text language s w = (w', inr (path, d)) ->
  exists mp3 base out,
    tts_fetch O text (_fallback_deprecated_lang (_get_tts_language_code language))
      (Qltb s (4 # 5)) = Some mp3 /\
    decode O "mp3" mp3 = Some base /\
    speedup base s = inr out /\ d = (inject_Z (seg_ms out) / 1000)%Q.
Proof.
  intros H1 H2 H3 H. unfold text_to_speech in H.
  apply try_except_inr_inv in H; [| intros e w0; do 2 eexists; reflexivity].
  cbv zeta in H.
  apply bind_inr_inv in H as (w1 & tts & Hg & H).
  apply gTTS_new_inr in Hg. subst tts.
  apply bind_inr_inv in H as (w2 & tmp & _ & H).
  apply bind_inr_inv in H as (w3 & [] & Hs & H).
  apply gTTS_save_inr in Hs as (mp3 & Hf & Hfs). cbn [tts_text tts_lang tts_slow] in Hf.
  apply bind_inr_inv in H as (w4 & dur & Hd & H).
  unfold ret in H. injection H as _ _ <-.
  apply try_finally_inr_inv in Hd as (w5 & Hd).
  destruct (adjust_and_export_speedup O _ _ s w3 w5 dur H1 H2 H3 Hd)
    as (data & base & out & Hdata & Hdec & Hsp & Hdur).
  rewrite Hfs in Hdata. injection Hdata as <-.
  exists mp3, base, out. auto.
Qed.

(** C6: 3 s of generated speech at speed 257/256 come out 0.317 s long, far
    below 90% of 3 s / (257/256); at speed 0.9, which the code's comment
    calls "Slow down", the 3 s come out 0.5 s long. *)
Lemma text_to_speech_duration_after_speedup_witness :
  let O := sample_oracles (fun _ => Some (mkSeg 3000)) None (RecText "") (RecText "")
             (Some [255; 251]) in
  (exists base out, decode O "mp3" [255; 251] = Some base /\ seg_ms base = 3000 /\
     speedup base (257 # 256) = inr out /\
     snd (text_to_speech O "hello" "en" (257 # 256) sample_world) =
       inr ("/api/v1/audio/8c0e2f4a.mp3", (inject_Z (seg_ms out) / 1000)%Q) /\
     seg_ms out = 317 /\
     (inject_Z (seg_ms out) / 1000 < (9 # 10) * ((3000 # 1000) / (257 # 256)))%Q) /\
  (exists base out, decode O "mp3" [255; 251] = Some base /\ seg_ms base = 3000 /\
     speedup base (9 # 10) = inr out /\
     snd (text_to_speech O "hello" "en" (9 # 10) sample_world) =
       inr ("/api/v1/audio/8c0e2f4a.mp3", (inject_Z (seg_ms out) / 1000)%Q) /\
     seg_ms out = 500).
Proof.
  intros O. split.
  - destruct (text_to_speech_duration_after_speedup O "hello" "en" (257 # 256) sample_world
       (fst (text_to_speech O "hello" "en" (257 # 256) sample_world))
       "/api/v1/audio/8c0e2f4a.mp3" (317 # 1000))
      as (mp3 & base & out & Hf & Hd & Hs & Hdur);
      [vm_compute; first [reflexivity | intros Hc; discriminate Hc] .. |].
    vm_compute in Hf. injection Hf as <-.
    exists base, out. vm_compute in Hd. injection Hd as <-.
    split; [reflexivity | split; [reflexivity | split; [exact Hs |]]].
    vm_compute in Hs. injection Hs as <-. vm_compute. auto.
  - destruct (text_to_speech_duration_after_speedup O "hello" "en" (9 # 10) sample_world
       (fst (text_to_speech O "hello" "en" (9 # 10) sample_world))
       "/api/v1/audio/8c0e2f4a.mp3" (500 # 1000))
      as (mp3 & base & out & Hf & Hd & Hs & Hdur);
      [vm_compute; first [reflexivity | intros Hc; discriminate Hc] .. |].
    vm_compute in Hf. injection Hf as <-.
    exists base, out. vm_compute in Hd. injection Hd as <-.
    split; [reflexivity | split; [reflexivity | split; [exact Hs |]]].
    vm_compute in Hs. injection Hs as <-. vm_compute. auto.
Defined.

(** C7: for every speed in [0.5, 0.8), [text_to_speech] asks gTTS for its
    native slow speech ([slow=True]) and applies no [speedup]. *)
Theorem text_to_speech_slow_native (O : oracles) text language voice_speed w :
  (1 # 2 <= voice_speed)%Q -> (voice_speed < 4 # 5)%Q ->
  exists new,
    log (fst (text_to_speech O text language voice_speed w)) = log w ++ new /\
    Forall (fun ev => is_speedup ev = false) new /\
    Forall (fun ev => forall l b, ev = EvTts l b -> b = true) new.
Proof.
  intros _ Hs.
  set (P := fun ev => is_speedup ev = false /\ forall l b, ev = EvTts l b -> b = true).
  assert (HP : forall ev, plain_tts_event ev -> P ev).
  { intros ev Hev. unfold P.
    destruct ev; simpl in Hev; try contradiction;
      (split; [reflexivity | intros ? ? Heq; discriminate]). }
  assert (H : runs_within P (fun _ => True) (text_to_speech O text language voice_speed)).
  { unfold text_to_speech.
    eapply rw_try_except with (Qm := fun _ => True);
      [| intros; apply rw_raise; exact I | intros; exact I].
    unfold gTTS_new.
    assert (Hslow : Qltb voice_speed (4 # 5) = true) by (apply Qltb_iff; exact Hs).
    rewrite Hslow.
    destruct (String.eqb text ""); cbv beta iota;
      [rewrite bind_raise_l; apply rw_raise; exact I |].
    match goal with |- context [tts_supported O ?l] => destruct (tts_supported O l) end;
      cbv beta iota;
      [rewrite bind_ret_l | rewrite bind_raise_l; apply rw_raise; exact I].
    rw_solve.
    - apply rw_named_temporary_file; try (intros; exact I).
      intros. apply HP. exact I.
    - apply rw_gTTS_save; try exact I; [apply HP; exact I |].
      split; [reflexivity | intros l b Heq; injection Heq; intros; subst; reflexivity].
    - apply adjust_and_export_no_speedup; assumption.
    - apply rw_unlink; try exact I. apply HP. exact I. }
  destruct (H w) as (n & Hl & Hf & _). exists n.
  split; [exact Hl |].
  split; eapply Forall_impl; try exact Hf; intros ev [Ha Hb]; assumption.
Qed.

Lemma text_to_speech_slow_native_witness :
  exists new,
    log (fst (text_to_speech (sample_oracles (fun _ => Some (mkSeg 3000)) None
                (RecText "") (RecText "") (Some [255; 251])) "hello" "en" (3 # 5) sample_world))
      = log sample_world ++ new /\
    Forall (fun ev => is_speedup ev = false) new /\
    Forall (fun ev => forall l b, ev = EvTts l b -> b = true) new.
Proof.
  apply text_to_speech_slow_native; vm_compute; first [reflexivity | intros Hc; discriminate Hc].
Defined.

(** C8: an absent [voice_speed] is 1.0; a value outside [0.5, 2.0] is
    rejected by validation, not clamped; a value inside is kept. *)
Theorem voice_speed_default_and_range :
  validate_voice_speed FieldAbsent = inr (Some 1%Q) /\
  (forall q, (q < 1 # 2)%Q \/ (2 < q)%Q ->
     exists msg, validate_voice_speed (FieldNumber q) = inl (Exc ExcValidation msg)) /\
  (forall q, (1 # 2 <= q)%Q -> (q <= 2)%Q ->
     validate_voice_speed (FieldNumber q) = inr (Some q)).
Proof.
  split; [reflexivity | split].
  - intros q Hq. simpl. destruct (Qltb q (1 # 2)) eqn:E1; [eauto |].
    destruct Hq as [Hq | Hq].
    + apply Qltb_iff in Hq. congruence.
    + apply Qltb_iff in Hq. rewrite Hq. eauto.
  - intros q Hlo Hhi. simpl.
    apply Qltb_false_iff in Hlo. apply Qltb_false_iff in Hhi. rewrite Hlo, Hhi. reflexivity.
Qed.

(** C8: a speed of 3 is refused, not clamped to 2. *)
Lemma voice_speed_three_rejected :
  validate_voice_speed (FieldNumber 3) =
    inl (Exc ExcValidation "Input should be less than or equal to 2").
Proof. vm_compute. reflexivity. Qed.

(** C10: when [base64.b64decode] raises, [voice_to_text] fails at once:
    the world (files, temporary names, log) is left as it was. *)
Theorem voice_to_text_bad_base64_no_effect (O : oracles) audio_data language w e :
  b64decode audio_data = inl e ->
  voice_to_text O audio_data language w =
    (w, inl (Exc ExcException ("Voice to text conversion failed: " ++ exc_msg e)%string)).
Proof.
  intros H. pose proof (b64decode_ordinary _ _ H) as (H1 & H2 & _).
  unfold voice_to_text, try_except, bind, lift_sum. rewrite H.
  unfold any_exception, voice_to_text_handler, raise.
  destruct (exc_cls e); congruence.
Qed.

Lemma voice_to_text_bad_base64_no_effect_witness :
  voice_to_text (sample_oracles (fun _ => None) None (RecText "") (RecText "") None)
    "abc" "en" sample_world =
  (sample_world, inl (Exc ExcException "Voice to text conversion failed: Incorrect padding")).
Proof.
  apply (voice_to_text_bad_base64_no_effect _ "abc" "en" sample_world
           (Exc ExcBinascii "Incorrect padding")).
  vm_compute. reflexivity.
Defined.

(** C10: ["@@@@"] is not valid base64, yet the lenient decoder accepts it
    (as no bytes) and [voice_to_text] goes on to create a temporary file. *)
Lemma invalid_base64_creates_temp :
  is_valid_base64 "@@@@" = false /\
  In (EvTempCreate "/tmp/tmpaaaaaaaa.wav")
    (log (fst (voice_to_text (sample_oracles (fun _ => None) None (RecText "") (RecText "") None)
                 "@@@@" "en" sample_world))).
Proof. split; [reflexivity | vm_compute; left; reflexivity]. Qed.

(* ================================================================== *)
(** * Further properties of the services and routes *)

Lemma in_byte_values x : 0 <= x < 256 -> In x (map Z.of_nat (seq 0 256)).
Proof.
  intros Hx. apply in_map_iff. exists (Z.to_nat x). split; [lia |].
  apply in_seq. lia.
Qed.

Lemma byte_check1 (f : Z -> bool) :
  forallb f (map Z.of_nat (seq 0 256)) = true -> forall a, 0 <= a < 256 -> f a = true.
Proof.
  intros H a Ha. rewrite forallb_forall in H. apply H, in_byte_values, Ha.
Qed.

Lemma byte_check2 (f : Z -> Z -> bool) :
  forallb (fun a => forallb (f a) (map Z.of_nat (seq 0 256))) (map Z.of_nat (seq 0 256)) = true ->
  forall a b, 0 <= a < 256 -> 0 <= b < 256 -> f a b = true.
Proof.
  intros H a b Ha Hb. rewrite forallb_forall in H.
  specialize (H a (in_byte_values a Ha)). rewrite forallb_forall in H.
  apply H, in_byte_values, Hb.
Qed.

Lemma b64_char_spec v : 0 <= v < 64 ->
  Ascii.eqb (b64_char v) "=" = false /\ b64_value (b64_char v) = Some v /\
  (nat_of_ascii (b64_char v) < 128)%nat.
Proof.
  intros Hv.
  pose proof (byte_check1 (fun v => implb ((0 <=? v)%Z && (v <? 64)%Z)
     (negb (Ascii.eqb (b64_char v) "=") &&
      match b64_value (b64_char v) with Some x => (x =? v)%Z | None => false end &&
      (nat_of_ascii (b64_char v) <? 128)%nat))
    ltac:(vm_compute; reflexivity) v ltac:(lia)) as H.
  cbv beta in H.
  replace ((0 <=? v)%Z && (v <? 64)%Z) with true in H by (symmetry; apply andb_true_iff; lia).
  simpl in H. apply andb_true_iff in H as [H H3]. apply andb_true_iff in H as [H1 H2].
  apply negb_true_iff in H1. apply Nat.ltb_lt in H3.
  destruct (b64_value (b64_char v)) as [x|]; [apply Z.eqb_eq in H2; subst x | discriminate].
  auto.
Qed.

(** The six characters of a group are in the alphabet range, and the
    decoder's shifts give the bytes back. *)
Lemma b64_group_bits a b c :
  0 <= a < 256 -> 0 <= b < 256 -> 0 <= c < 256 ->
  let v1 := Z.shiftr a 2 in
  let v2 := Z.lor (Z.shiftl (Z.land a 3) 4) (Z.shiftr b 4) in
  let v3 := Z.lor (Z.shiftl (Z.land b 15) 2) (Z.shiftr c 6) in
  let v4 := Z.land c 63 in
  (0 <= v1 < 64 /\ 0 <= v2 < 64 /\ 0 <= v3 < 64 /\ 0 <= v4 < 64) /\
  Z.land (Z.lor (Z.shiftl v1 2) (Z.shiftr v2 4)) 255 = a /\
  Z.land (Z.lor (Z.shiftl (Z.land v2 15) 4) (Z.shiftr v3 2)) 255 = b /\
  Z.land (Z.lor (Z.shiftl (Z.land v3 3) 6) v4) 255 = c.
Proof.
  intros Ha Hb Hc. cbv zeta.
  pose proof (byte_check2 (fun a b =>
    let v2 := Z.lor (Z.shiftl (Z.land a 3) 4) (Z.shiftr b 4) in
    ((0 <=? Z.shiftr a 2) && (Z.shiftr a 2 <? 64) && (0 <=? v2) && (v2 <? 64) &&
     (Z.land (Z.lor (Z.shiftl (Z.shiftr a 2) 2) (Z.shiftr v2 4)) 255 =? a) &&
     (Z.land v2 15 =? Z.shiftr b 4))%Z)
    ltac:(vm_compute; reflexivity) a b Ha Hb) as H1.
  pose proof (byte_check2 (fun b c =>
    let v3 := Z.lor (Z.shiftl (Z.land b 15) 2) (Z.shiftr c 6) in
    ((0 <=? v3) && (v3 <? 64) &&
     (Z.land (Z.lor (Z.shiftl (Z.shiftr b 4) 4) (Z.shiftr v3 2)) 255 =? b) &&
     (0 <=? Z.land c 63) && (Z.land c 63 <? 64) &&
     (Z.land (Z.lor (Z.shiftl (Z.land v3 3) 6) (Z.land c 63)) 255 =? c))%Z)
    ltac:(vm_compute; reflexivity) b c Hb Hc) as H2.
  cbv beta zeta in H1, H2.
  repeat match goal with
  | H : (_ && _) = true |- _ => apply andb_true_iff in H as [? ?]
  | H : (_ <=? _)%Z = true |- _ => apply Z.leb_le in H
  | H : (_ <? _)%Z = true |- _ => apply Z.ltb_lt in H
  | H : (_ =? _)%Z = true |- _ => apply Z.eqb_eq in H
  end.
  match goal with H : Z.land (Z.lor (Z.shiftl (Z.land a 3) 4) (Z.shiftr b 4)) 15 = _ |- _ =>
    rewrite H end.
  repeat split; assumption.
Qed.

Lemma b64_chars a b c :
  0 <= a < 256 -> 0 <= b < 256 -> 0 <= c < 256 ->
  let v1 := Z.shiftr a 2 in
  let v2 := Z.lor (Z.shiftl (Z.land a 3) 4) (Z.shiftr b 4) in
  let v3 := Z.lor (Z.shiftl (Z.land b 15) 2) (Z.shiftr c 6) in
  let v4 := Z.land c 63 in
  forall rest l p out,
  a2b_base64_loop (String (b64_char v1) (String (b64_char v2)
     (String (b64_char v3) (String (b64_char v4) rest)))) 0 l p out =
  a2b_base64_loop rest 0 0 0 (c :: b :: a :: out).
Proof.
  intros Ha Hb Hc. pose proof (b64_group_bits a b c Ha Hb Hc) as Hg. cbv zeta in *.
  destruct Hg as ((R1 & R2 & R3 & R4) & E1 & E2 & E3).
  intros rest l p out.
  destruct (b64_char_spec _ R1) as (Q1 & V1 & _).
  destruct (b64_char_spec _ R2) as (Q2 & V2 & _).
  destruct (b64_char_spec _ R3) as (Q3 & V3 & _).
  destruct (b64_char_spec _ R4) as (Q4 & V4 & _).
  cbn [a2b_base64_loop]. rewrite Q1, V1. cbn -[a2b_base64_loop b64_char].
  cbn [a2b_base64_loop]. rewrite Q2, V2. cbn -[a2b_base64_loop b64_char].
  cbn [a2b_base64_loop]. rewrite Q3, V3. cbn -[a2b_base64_loop b64_char].
  cbn [a2b_base64_loop]. rewrite Q4, V4. cbn -[a2b_base64_loop b64_char].
  rewrite E1, E2, E3. reflexivity.
Qed.

Lemma b64encode_decodes_loop bs :
  Forall (fun x => 0 <= x < 256) bs ->
  forall l p out, a2b_base64_loop (b64encode bs) 0 l p out = inr (rev out ++ bs).
Proof.
  induction bs as [bs IH] using (induction_ltof1 _ (@length Z)); unfold ltof in IH.
  intros Hb l p out.
  destruct bs as [|a [|b [|c rest]]].
  - simpl. rewrite app_nil_r. reflexivity.
  - inversion Hb as [|? ? Ha _]; subst.
    destruct (b64_group_bits a 0 0 Ha ltac:(lia) ltac:(lia))
      as ((R1 & R2 & _ & _) & E1 & _ & _).
    rewrite Z.shiftr_0_l, Z.lor_0_r in R2, E1.
    destruct (b64_char_spec _ R1) as (Q1 & V1 & _).
    destruct (b64_char_spec _ R2) as (Q2 & V2 & _).
    cbn [b64encode a2b_base64_loop]. rewrite Q1, V1. cbn -[a2b_base64_loop b64_char].
    cbn [a2b_base64_loop]. rewrite Q2, V2. cbn -[a2b_base64_loop b64_char].
    rewrite E1. reflexivity.
  - inversion Hb as [|? ? Ha Hb']; subst. inversion Hb' as [|? ? Hb1 _]; subst.
    destruct (b64_group_bits a b 0 Ha Hb1 ltac:(lia))
      as ((R1 & R2 & R3 & _) & E1 & E2 & _).
    rewrite Z.shiftr_0_l, Z.lor_0_r in R3, E2.
    destruct (b64_char_spec _ R1) as (Q1 & V1 & _).
    destruct (b64_char_spec _ R2) as (Q2 & V2 & _).
    destruct (b64_char_spec _ R3) as (Q3 & V3 & _).
    cbn [b64encode a2b_base64_loop]. rewrite Q1, V1. cbn -[a2b_base64_loop b64_char].
    cbn [a2b_base64_loop]. rewrite Q2, V2. cbn -[a2b_base64_loop b64_char].
    cbn [a2b_base64_loop]. rewrite Q3, V3. cbn -[a2b_base64_loop b64_char].
    rewrite E1, E2. simpl. rewrite <- app_assoc. reflexivity.
  - inversion Hb as [|? ? Ha Hb']; subst. inversion Hb' as [|? ? Hb1 Hc']; subst.
    inversion Hc' as [|? ? Hc1 Hr]; subst.
    cbn [b64encode]. rewrite (b64_chars a b c Ha Hb1 Hc1).
    rewrite (IH rest ltac:(simpl; lia) Hr). simpl. rewrite <- !app_assoc. reflexivity.
Qed.

Lemma b64encode_ascii bs :
  Forall (fun x => 0 <= x < 256) bs -> is_ascii_str (b64encode bs) = true.
Proof.
  induction bs as [bs IH] using (induction_ltof1 _ (@length Z)); unfold ltof in IH.
  intros Hb.
  assert (Hc : forall v, 0 <= v < 64 -> (nat_of_ascii (b64_char v) <? 128)%nat = true)
    by (intros v Hv; apply Nat.ltb_lt, (b64_char_spec v Hv)).
  destruct bs as [|a [|b [|c rest]]]; [reflexivity | ..].
  - inversion Hb as [|? ? Ha _]; subst.
    destruct (b64_group_bits a 0 0 Ha ltac:(lia) ltac:(lia)) as ((R1 & R2 & _ & _) & _).
    rewrite Z.shiftr_0_l, Z.lor_0_r in R2.
    cbn [b64encode is_ascii_str]. rewrite (Hc _ R1), (Hc _ R2). reflexivity.
  - inversion Hb as [|? ? Ha Hb']; subst. inversion Hb' as [|? ? Hb1 _]; subst.
    destruct (b64_group_bits a b 0 Ha Hb1 ltac:(lia)) as ((R1 & R2 & R3 & _) & _).
    rewrite Z.shiftr_0_l, Z.lor_0_r in R3.
    cbn [b64encode is_ascii_str]. rewrite (Hc _ R1), (Hc _ R2), (Hc _ R3). reflexivity.
  - inversion Hb as [|? ? Ha Hb']; subst. inversion Hb' as [|? ? Hb1 Hc']; subst.
    inversion Hc' as [|? ? Hc1 Hr]; subst.
    destruct (b64_group_bits a b c Ha Hb1 Hc1) as ((R1 & R2 & R3 & R4) & _).
    cbn [b64encode is_ascii_str].
    rewrite (Hc _ R1), (Hc _ R2), (Hc _ R3), (Hc _ R4).
    apply (IH rest ltac:(simpl; lia) Hr).
Qed.

(** X1: [base64.b64decode] gives back every byte list that [base64.b64encode] (used by the upload route) encoded. *)
Theorem b64decode_b64encode bs :
  Forall (fun x => 0 <= x < 256) bs -> b64decode (b64encode bs) = inr bs.
Proof.
  intros Hb. unfold b64decode. rewrite (b64encode_ascii bs Hb).
  apply (b64encode_decodes_loop bs Hb 0 0 []).
Qed.

Lemma b64decode_b64encode_witness :
  Forall (fun x => 0 <= x < 256) [0; 255; 16; 200; 7] /\
  b64decode (b64encode [0; 255; 16; 200; 7]) = inr [0; 255; 16; 200; 7].
Proof.
  split; [repeat constructor; lia | apply b64decode_b64encode; repeat constructor; lia].
Defined.

(** X2: every language of [settings.supported_languages] has an entry in the recognition-code table, and no other language does. *)
Theorem supported_languages_have_recognition_code l :
  is_supported l = true <-> is_Some (recognition_mapping !! l).
Proof.
  unfold is_supported. rewrite bool_decide_eq_true, <- !elem_of_dom.
  assert (E : dom supported_languages = dom recognition_mapping).
  { apply (bool_decide_eq_true_1 (dom supported_languages = dom recognition_mapping)).
    vm_compute. reflexivity. }
  rewrite E. reflexivity.
Qed.

(** X3: [_get_tts_language_code] maps every code to itself, except ["zh"], which becomes ["zh-cn"]. *)
Theorem tts_code_identity_except_zh l :
  _get_tts_language_code l = if String.eqb l "zh" then "zh-cn" else l.
Proof.
  unfold _get_tts_language_code.
  destruct (String.eqb_spec l "zh") as [-> | Hne]; [vm_compute; reflexivity |].
  destruct (tts_mapping !! l) as [v|] eqn:E; [| reflexivity].
  apply elem_of_list_to_map_2 in E.
  repeat (apply elem_of_cons in E as [E | E]; [injection E as -> ->; first [reflexivity | congruence] |]).
  apply elem_of_nil in E. contradiction.
Qed.

(** What a [voice_to_text] run ends with: an [Exception] whose message
    is one of two kinds, or a transcript whose confidence tells which
    backend produced it. *)
Lemma voice_to_text_outcome (O : oracles) audio_data language w :
  exists new, log (fst (voice_to_text O audio_data language w)) = log w ++ new /\
  match snd (voice_to_text O audio_data language w) with
  | inl e => exc_cls e = ExcException /\
      (exc_msg e = "Could not understand the audio" \/
       exists r, exc_msg e = ("Voice to text conversion failed: " ++ r)%string)
  | inr (_, c) => (c = 17 # 20 /\ ~ Exists google_unreachable new) \/
                  (c = 7 # 10 /\ Exists google_unreachable new)
  end.
Proof.
  destruct (voice_to_text_body_reaches O audio_data language w)
    as (new & Hl & [[Hf (e & Hr & Ho)] | (a & pre & post & Hpre & Hpost & Hn & Hr)]);
    exists new; unfold voice_to_text, try_except;
    match goal with |- context [match ?m with _ => _ end] =>
      destruct m as [w1 r] eqn:E end; simpl in Hl, Hr; subst r;
    unfold any_exception.
  - rewrite voice_to_text_handler_world. split; [exact Hl |].
    destruct Ho as (H1 & H2 & _). unfold voice_to_text_handler.
    destruct (exc_cls e); try congruence; simpl; eauto.
  - assert (Hlog : forall r, log (fst (match r with
                                       | inl e => voice_to_text_handler e w1
                                       | inr a => (w1, inr a) end)) = log w1).
    { intros [e | x]; [unfold voice_to_text_handler; destruct (exc_cls e) |]; reflexivity. }
    rewrite Hlog. split; [exact Hl |]. subst new.
    unfold rec_res, rec_new.
    destruct (recognize_google O a _) as [t | | mg]; cbn [is_request_error snd fst];
      [| | destruct (recognize_sphinx O a "en-US") as [t' | | ms]; cbn [snd fst]];
      rewrite ?(nonrec_app_iff _ pre _ post Hpre Hpost google_unreachable_rec).
    + left. split; [reflexivity |]. intros Hx.
      inversion Hx as [? ? Hg | ? ? Hx']; subst;
        [destruct Hg as (? & ? & Hg); discriminate | inversion Hx'].
    + split; [reflexivity | left; reflexivity].
    + right. split; [reflexivity |]. constructor. eexists _, _. reflexivity.
    + split; [reflexivity | left; reflexivity].
    + split; [reflexivity | right; eexists; reflexivity].
Qed.

(** X4: [voice_to_text] raises only [Exception]s whose message is ["Could not understand the audio"] or starts with ["Voice to text conversion failed: "]; its [except sr.RequestError] clause is never reached. *)
Theorem voice_to_text_error_messages (O : oracles) audio_data language w :
  match snd (voice_to_text O audio_data language w) with
  | inl e => exc_cls e = ExcException /\
      (exc_msg e = "Could not understand the audio" \/
       exists r, exc_msg e = ("Voice to text conversion failed: " ++ r)%string)
  | inr _ => True
  end.
Proof.
  destruct (voice_to_text_outcome O audio_data language w) as (new & _ & H).
  destruct (snd _) as [e | [t c]]; [exact H | exact I].
Qed.

(** X5: a transcript of [voice_to_text] has confidence 0.85 when Google's recogniser answered, and 0.7 exactly when the run logged an unreachable Google backend. *)
Theorem voice_to_text_confidence_source (O : oracles) audio_data language w :
  exists new, log (fst (voice_to_text O audio_data language w)) = log w ++ new /\
  match snd (voice_to_text O audio_data language w) with
  | inr (_, c) => (c = 17 # 20 /\ ~ Exists google_unreachable new) \/
                  (c = 7 # 10 /\ Exists google_unreachable new)
  | inl _ => True
  end.
Proof.
  destruct (voice_to_text_outcome O audio_data language w) as (new & Hl & H).
  exists new. split; [exact Hl |].
  destruct (snd _) as [e | [t c]]; [exact I | exact H].
Qed.

(** X7: the errors of [POST /voice-to-text] are the 400 for an unsupported language, or a 500 whose detail repeats the prefix ["Voice to text conversion failed: "]; a response carries the requested language. *)
Theorem route_voice_to_text_error_detail (O : oracles) audio_data language w :
  match snd (route_voice_to_text O audio_data language w) with
  | inl h =>
      (is_supported language = false /\ status_code h = 400 /\
       detail h = ("Unsupported language: " ++ language)%string) \/
      (is_supported language = true /\ status_code h = 500 /\
       (detail h = "Voice to text conversion failed: Could not understand the audio" \/
        exists r, detail h = ("Voice to text conversion failed: Voice to text conversion failed: " ++ r)%string))
  | inr resp => is_supported language = true /\ vtt_language resp = language
  end.
Proof.
  unfold route_voice_to_text.
  destruct (is_supported language) eqn:Hs; [| left; auto].
  pose proof (voice_to_text_outcome O audio_data language w) as (new & _ & H).
  unfold route_catch, bind, ret.
  destruct (voice_to_text O audio_data language w) as [w1 [e | [t c]]]; simpl in *;
    [| auto].
  right. destruct H as (_ & [Hm | (r & Hm)]); rewrite Hm; simpl; eauto.
Qed.

(** X8: [POST /speech-to-text] checks the language first, then that the content type starts with ["audio/"]; a result has [text = transcription], the requested language, the uploaded file name and confidence 0.85 or 0.7. *)
Theorem route_speech_to_text_outcome (O : oracles) content content_type filename language w :
  match snd (route_speech_to_text O content content_type filename language w) with
  | inl h =>
      (is_supported language = false /\
       h = HTTPException 400 ("Unsupported language: " ++ language)) \/
      (is_supported language = true /\
       match content_type with Some ct => startswith "audio/" ct | None => false end = false /\
       h = HTTPException 400 "File must be an audio file") \/
      (status_code h = 500 /\
       (detail h = "Speech to text conversion failed: Could not understand the audio" \/
        exists r, detail h = ("Speech to text conversion failed: Voice to text conversion failed: " ++ r)%string))
  | inr res =>
      stt_text res = stt_transcription res /\ stt_language res = language /\
      stt_filename res = filename /\
      (stt_confidence_score res = 17 # 20 \/ stt_confidence_score res = 7 # 10)
  end.
Proof.
  unfold route_speech_to_text.
  destruct (is_supported language) eqn:Hs; cbn [negb]; [| left; auto].
  destruct (match content_type with Some ct => startswith "audio/" ct | None => false end)
    eqn:Hc; cbn [negb]; [| right; left; auto].
  cbv zeta.
  pose proof (voice_to_text_outcome O (b64encode content) language w) as (new & _ & H).
  unfold route_catch, bind, ret.
  destruct (voice_to_text O (b64encode content) language w) as [w1 [e | [t c]]];
    cbn in H |- *.
  - right; right. split; [reflexivity |].
    destruct H as (_ & [Hm | (r & Hm)]); rewrite Hm; [left | right; exists r]; reflexivity.
  - do 3 (split; [reflexivity |]). destruct H as [[-> _] | [-> _]]; auto.
Qed.

Lemma kf_ret {A} S (x : A) : keeps_fs_outside S (ret x).
Proof. intros w k _. reflexivity. Qed.

Lemma kf_raise {A} S e : keeps_fs_outside S (@raise A e).
Proof. intros w k _. reflexivity. Qed.

Lemma kf_emit S ev : keeps_fs_outside S (emit ev).
Proof. intros w k _. reflexivity. Qed.

Lemma kf_get_world S : keeps_fs_outside S get_world.
Proof. intros w k _. reflexivity. Qed.

Lemma kf_lift_sum {A} S (r : exc + A) : keeps_fs_outside S (lift_sum r).
Proof. intros w k _. reflexivity. Qed.

Lemma kf_bind {A B} S (m : PY A) (k : A -> PY B) :
  keeps_fs_outside S m -> (forall x, keeps_fs_outside S (k x)) ->
  keeps_fs_outside S (bind m k).
Proof.
  intros Hm Hk w i Hi. unfold bind. specialize (Hm w i Hi).
  destruct (m w) as [w1 [e|x]]; simpl in *; [exact Hm |].
  rewrite (Hk x w1 i Hi). exact Hm.
Qed.

Lemma kf_try_except {A} S (m : PY A) handled h :
  keeps_fs_outside S m -> (forall e, keeps_fs_outside S (h e)) ->
  keeps_fs_outside S (try_except m handled h).
Proof.
  intros Hm Hh w i Hi. unfold try_except. specialize (Hm w i Hi).
  destruct (m w) as [w1 [e|x]]; simpl in *; [| exact Hm].
  destruct (handled e); simpl; [rewrite (Hh e w1 i Hi) |]; exact Hm.
Qed.

Lemma kf_try_finally {A} S (m : PY A) f :
  keeps_fs_outside S m -> keeps_fs_outside S f -> keeps_fs_outside S (try_finally m f).
Proof.
  intros Hm Hf w i Hi. unfold try_finally. specialize (Hm w i Hi).
  destruct (m w) as [w1 r]; simpl in *. specialize (Hf w1 i Hi).
  destruct (f w1) as [w2 [e|u]]; simpl in *; congruence.
Qed.

Lemma kf_write_file S p d : p ∈ S -> keeps_fs_outside S (write_file p d).
Proof.
  intros Hp w i Hi. unfold write_file, bind, get_world, modify, emit, raise.
  destruct (dir_exists (dirname p) w); simpl; [| reflexivity].
  apply lookup_insert_ne. intros ->. contradiction.
Qed.

Lemma kf_read_file S p : keeps_fs_outside S (read_file p).
Proof.
  intros w i _. unfold read_file, bind, get_world, ret, raise.
  destruct (fs w !! p); reflexivity.
Qed.

Lemma kf_path_exists S p : keeps_fs_outside S (path_exists p).
Proof. intros w i _. reflexivity. Qed.

Lemma kf_unlink S p : p ∈ S -> keeps_fs_outside S (unlink p).
Proof.
  intros Hp w i Hi. unfold unlink, bind, get_world, modify, emit, raise.
  destruct (fs w !! p); simpl; [| reflexivity].
  apply lookup_delete_ne. intros ->. contradiction.
Qed.

Create HintDb keeps_fs.
Global Hint Resolve kf_ret kf_raise kf_emit kf_get_world kf_lift_sum kf_read_file
  kf_path_exists : keeps_fs.

Ltac kf_solve :=
  repeat match goal with
  | |- keeps_fs_outside _ (bind _ _) => apply kf_bind; [| intros ?]
  | |- keeps_fs_outside _ (try_finally _ _) => apply kf_try_finally
  | |- keeps_fs_outside _ (try_except _ _ _) => apply kf_try_except; [| intros ?]
  | |- keeps_fs_outside _ (if ?b then _ else _) => destruct b
  | |- keeps_fs_outside _ (match ?o with _ => _ end) => destruct o
  | |- keeps_fs_outside _ _ => progress eauto with keeps_fs
  end.

Section KeepsFs.

Context (O : oracles).

Lemma kf_from_file S p fmt : keeps_fs_outside S (from_file O p fmt).
Proof. unfold from_file. kf_solve. Qed.

Lemma kf_export S s p fmt : p ∈ S -> keeps_fs_outside S (export O s p fmt).
Proof. intros Hp. unfold export. kf_solve; apply kf_write_file; exact Hp. Qed.

Lemma kf_record_audio_file S p : keeps_fs_outside S (record_audio_file O p).
Proof. unfold record_audio_file. kf_solve. Qed.

Lemma kf_try_formats S raw fmts : keeps_fs_outside S (try_formats O raw fmts).
Proof.
  induction fmts as [|f fmts IH]; simpl; kf_solve.
  apply kf_from_file.
Qed.

Lemma kf_convert_to_wav S t b :
  t ∈ S -> str_replace t ".wav" ".raw" ∈ S -> keeps_fs_outside S (convert_to_wav O t b).
Proof.
  intros Ht Hr. unfold convert_to_wav. kf_solve;
    first [apply kf_write_file; assumption | apply kf_try_formats | apply kf_export; assumption].
Qed.

Lemma kf_recognize S audio lang : keeps_fs_outside S (recognize O audio lang).
Proof. intros w i _. rewrite recognize_spec. reflexivity. Qed.

End KeepsFs.

Lemma mkstemp_loop_fs n suffix w :
  match mkstemp_loop n suffix w with
  | (w', inr p) => fs w !! p = None /\ fs w' = <[p := []]> (fs w) /\
      exists r, p = (tmpdir w ++ "/tmp" ++ r ++ suffix)%string
  | (w', inl _) => fs w' = fs w
  end.
Proof.
  revert w. induction n as [|n IH]; intros w; [reflexivity |].
  cbn [mkstemp_loop]. unfold bind at 1, get_world. cbv beta iota zeta.
  unfold bind at 1, modify. cbv beta iota.
  set (name := (tmpdir w ++ "/tmp" ++ rand_chars 8 (rnd w) ++ suffix)%string).
  destruct (bool_decide (is_Some (fs w !! name))) eqn:E.
  - specialize (IH (World (fs w) (dirs w) (tmpdir w) (S (rnd w)) (log w))).
    cbn [fs tmpdir] in IH. exact IH.
  - apply bool_decide_eq_false in E.
    destruct (dir_exists (tmpdir w) _); [| reflexivity].
    unfold bind, modify, emit, ret. cbn.
    split; [apply eq_None_not_Some; exact E |].
    split; [reflexivity | exists (rand_chars 8 (rnd w)); reflexivity].
Qed.

Lemma cleanup_one_run p w :
  snd (cleanup_one p w) = inr tt /\ fs (fst (cleanup_one p w)) = delete p (fs w).
Proof.
  unfold cleanup_one, path_exists, bind, get_world, ret. cbv beta iota.
  destruct (fs w !! p) eqn:E.
  - rewrite bool_decide_eq_true_2 by eauto.
    unfold try_except, unlink, bind, get_world, modify, emit. rewrite E. cbn. auto.
  - rewrite bool_decide_eq_false_2 by (intros [? ?]; discriminate).
    cbn. split; [reflexivity | symmetry; apply delete_id; exact E].
Qed.

Lemma cleanup_paths_run ps w :
  snd (cleanup_paths ps w) = inr tt /\
  forall k, fs (fst (cleanup_paths ps w)) !! k =
    if bool_decide (k ∈ ps) then None else fs w !! k.
Proof.
  revert w. induction ps as [|p ps IH]; intros w.
  - split; [reflexivity |]. intros k. rewrite bool_decide_eq_false_2 by set_solver.
    reflexivity.
  - cbn [cleanup_paths fold_right]. fold (cleanup_paths ps).
    pose proof (cleanup_one_run p w) as [H1 H2].
    unfold bind. destruct (cleanup_one p w) as [w1 r1]. cbn in H1, H2. subst r1.
    destruct (IH w1) as [IH1 IH2]. split; [exact IH1 |]. intros k.
    rewrite IH2, H2. destruct (decide (k = p)) as [->|Hk].
    + rewrite lookup_delete_eq. rewrite (bool_decide_eq_true_2 (p ∈ p :: ps)) by set_solver.
      destruct (bool_decide _); reflexivity.
    + rewrite lookup_delete_ne by congruence.
      destruct (decide (k ∈ ps)).
      * rewrite !bool_decide_eq_true_2 by set_solver. reflexivity.
      * rewrite !bool_decide_eq_false_2 by set_solver. reflexivity.
Qed.

Lemma try_except_world {A} (m : PY A) handled h w :
  (forall e w0, fst (h e w0) = w0) -> fst (try_except m handled h w) = fst (m w).
Proof.
  intros Hh. unfold try_except. destruct (m w) as [w1 [e|x]]; [| reflexivity].
  destruct (handled e); [apply Hh | reflexivity].
Qed.


Lemma voice_to_text_fs O a l w :
  match b64decode a with
  | inl _ => fs (fst (voice_to_text O a l w)) = fs w
  | inr _ =>
      match mkstemp_loop TMP_MAX ".wav" w with
      | (w1, inr t) => forall k, fs (fst (voice_to_text O a l w)) !! k =
          if bool_decide (k ∈ [t; str_replace t ".wav" ".raw"]) then None else fs w1 !! k
      | (w1, inl _) => fs (fst (voice_to_text O a l w)) = fs w1
      end
  end.
Proof.
  unfold voice_to_text. rewrite try_except_world by apply voice_to_text_handler_world.
  rewrite bind_apply. unfold lift_sum. destruct (b64decode a) as [e|b]; [reflexivity |].
  rewrite bind_apply. unfold named_temporary_file.
  destruct (mkstemp_loop TMP_MAX ".wav" w) as [w1 [e|t]]; [reflexivity |].
  intros k. unfold try_finally.
  match goal with
  | |- context [match ?m w1 with (_, _) => _ end] => destruct (m w1) as [w2 r2] eqn:Hbody
  end.
  pose proof (cleanup_paths_run [t; str_replace t ".wav" ".raw"] w2) as [Hc1 Hc2].
  destruct (cleanup_paths _ w2) as [w3 r3]. cbn in Hc1, Hc2. subst r3. cbn [fst].
  rewrite Hc2. case_bool_decide as Hk; [reflexivity |].
  assert (HB : keeps_fs_outside [t; str_replace t ".wav" ".raw"]
    (convert_to_wav O t b ;;;
     let! audio := record_audio_file O t in
     recognize O audio (_get_recognition_language_code l))).
  { apply kf_bind; [apply kf_convert_to_wav; set_solver | intros _].
    apply kf_bind; [apply kf_record_audio_file | intros ?; apply kf_recognize]. }
  specialize (HB w1 k Hk). rewrite Hbody in HB. exact HB.
Qed.

Lemma try_formats_prefix_run (O : oracles) raw fmts w :
  fs (fst (try_formats O raw fmts w)) = fs w /\
  (exists k, log (fst (try_formats O raw fmts w)) =
               log w ++ map (fun f => EvDecode f raw) (firstn k fmts)) /\
  (exists r, snd (try_formats O raw fmts w) = inr r).
Proof.
  revert w. induction fmts as [|f fmts IH]; intros w.
  - simpl. split; [reflexivity |].
    split; [exists 0%nat; simpl; rewrite app_nil_r; reflexivity | eauto].
  - rewrite try_formats_step. destruct (snd (from_file O raw f w)).
    + destruct (IH (push_log w [EvDecode f raw])) as (H1 & (k & H2) & H3).
      split; [exact H1 | split; [| exact H3]].
      exists (S k). rewrite H2. simpl. rewrite <- app_assoc. reflexivity.
    + simpl. split; [reflexivity | split; [exists 1%nat; reflexivity | eauto]].
Qed.

(** Lines 53-94: the raw file is written once, the candidates decode it in
    turn, and what follows neither touches it nor removes any file. *)
Lemma convert_to_wav_log (O : oracles) t b w :
  let raw := str_replace t ".wav" ".raw" in
  dir_exists (dirname raw) w = true -> t <> raw ->
  exists k rest,
    log (fst (convert_to_wav O t b w)) =
      log w ++ EvWrite raw :: map (fun f => EvDecode f raw) (firstn k format_candidates)
        ++ rest /\
    Forall (fun ev => event_path ev <> Some raw /\ is_unlink ev = false) rest /\
    fs (fst (convert_to_wav O t b w)) !! raw = Some b.
Proof.
  intros raw Hd Ht.
  set (P := fun ev => event_path ev <> Some raw /\ is_unlink ev = false).
  assert (HW : P (EvWrite t)) by (split; [cbn; congruence | reflexivity]).
  assert (HX : P (EvExport t)) by (split; [cbn; congruence | reflexivity]).
  assert (Hr : raw ∉ [t]) by set_solver.
  unfold convert_to_wav. fold raw. unfold try_except. rewrite bind_apply.
  rewrite (write_file_run raw b w Hd). rewrite bind_apply.
  set (w2 := push_log (set_fs (<[raw:=b]> (fs w)) w) [EvWrite raw]).
  destruct (try_formats_prefix_run O raw format_candidates w2) as (Hf & (k & Hk) & (r & Hr')).
  destruct (try_formats O raw format_candidates w2) as [w3 r'] eqn:E.
  cbn [snd fst] in Hr', Hk, Hf. subst r'.
  assert (Htail : forall m : PY unit,
    runs_within P (fun _ => True) m -> keeps_fs_outside [t] m ->
    exists rest,
      log (fst (match m w3 with
                | (w', inl e) => if any_exception e then write_file t b w' else (w', inl e)
                | r0 => r0 end)) = log w3 ++ rest /\ Forall P rest /\
      fs (fst (match m w3 with
               | (w', inl e) => if any_exception e then write_file t b w' else (w', inl e)
               | r0 => r0 end)) !! raw = fs w3 !! raw).
  { intros m Hm Hkf. destruct (Hm w3) as (n1 & Hl1 & HF1 & _).
    pose proof (Hkf w3 raw Hr) as Hk1.
    destruct (m w3) as [w4 [e|x]]; cbn [fst] in Hl1, Hk1 |- *.
    - destruct (any_exception e).
      + destruct (rw_write_file P (fun _ => True) t b HW I w4) as (n2 & Hl2 & HF2 & _).
        pose proof (kf_write_file [t] t b ltac:(set_solver) w4 raw Hr) as Hk2.
        exists (n1 ++ n2). rewrite Hl2, Hl1, <- app_assoc, Hk2, Hk1.
        split; [reflexivity | split; [apply Forall_app; auto | reflexivity]].
      + exists n1. auto.
    - exists n1. auto. }
  destruct (Htail (match r with
                   | Some s => if seg_truthy r then export O s t "wav" else write_file t b
                   | None => write_file t b end)) as (rest & Hl & HF & Hfs).
  { destruct r as [s|]; [destruct (seg_truthy (Some s)) |];
      first [apply rw_export | apply rw_write_file]; auto. }
  { destruct r as [s|]; [destruct (seg_truthy (Some s)) |];
      first [apply kf_export | apply kf_write_file]; set_solver. }
  exists k, rest. split; [| split; [exact HF |]].
  - rewrite Hl, Hk. unfold w2. destruct w. cbn. rewrite <- !app_assoc. reflexivity.
  - rewrite Hfs, Hf. unfold w2. apply lookup_insert_eq.
Qed.

(** Lines 149-177 up to the [finally] block: after [convert_to_wav], only
    the recognizer runs, which neither touches the raw file nor removes any
    file. *)
Lemma voice_to_text_body_log (O : oracles) t b l w :
  let raw := str_replace t ".wav" ".raw" in
  dir_exists (dirname raw) w = true -> t <> raw ->
  exists k rest,
    log (fst ((convert_to_wav O t b ;;;
               let! audio := record_audio_file O t in
               recognize O audio (_get_recognition_language_code l)) w)) =
      log w ++ EvWrite raw :: map (fun f => EvDecode f raw) (firstn k format_candidates)
        ++ rest /\
    Forall (fun ev => event_path ev <> Some raw /\ is_unlink ev = false) rest /\
    fs (fst ((convert_to_wav O t b ;;;
              let! audio := record_audio_file O t in
              recognize O audio (_get_recognition_language_code l)) w)) !! raw = Some b.
Proof.
  intros raw Hd Ht.
  destruct (convert_to_wav_log O t b w Hd Ht) as (k & rest & Hl & HF & Hfs).
  fold raw in Hl, HF, Hfs. rewrite bind_apply.
  destruct (convert_to_wav O t b w) as [w4 [e|[]]]; cbn [fst] in Hl, Hfs |- *.
  - exists k, rest. auto.
  - set (P := fun ev => event_path ev <> Some raw /\ is_unlink ev = false) in HF.
    assert (Hrw : runs_within P (fun _ => True)
      (let! audio := record_audio_file O t in
       recognize O audio (_get_recognition_language_code l))).
    { apply rw_bind; [apply rw_record_audio_file; auto;
                      split; [cbn; congruence | reflexivity] |].
      intros audio w5. rewrite recognize_spec.
      exists (rec_new O audio (_get_recognition_language_code l)).
      split; [reflexivity | split; [| intros; exact I]].
      unfold rec_new. cbv zeta.
      destruct (is_request_error _); repeat constructor; discriminate. }
    destruct (Hrw w4) as (n3 & Hl3 & HF3 & _).
    assert (Hkf : keeps_fs_outside []
      (let! audio := record_audio_file O t in
       recognize O audio (_get_recognition_language_code l))).
    { apply kf_bind; [apply kf_record_audio_file | intros ?; apply kf_recognize]. }
    exists k, (rest ++ n3). rewrite Hl3, Hl, <- app_assoc. cbn [app]. rewrite <- !app_assoc.
    split; [reflexivity | split; [apply Forall_app; auto |]].
    rewrite (Hkf w4 raw ltac:(set_solver)). exact Hfs.
Qed.

(** C9: every format attempt reads the one raw file written before the
    loop. The loop creates, writes and removes no file, never raises, and
    its only calls are decodes of a prefix of the candidates on that raw
    path. In a [voice_to_text] call, the log after the temporary file is
    created is the write of the raw file, the decodes of it, events that
    neither touch it nor remove any file, and then the [finally] cleanup,
    whose only events remove the temporary file or the raw file. The world
    before the cleanup still holds the raw bytes; after the call the raw file
    is gone. *)
Theorem try_formats_shared_raw (O : oracles) a l w b w1 t :
  b64decode a = inr b ->
  named_temporary_file ".wav" w = (w1, inr t) ->
  let raw := str_replace t ".wav" ".raw" in
  dir_exists (dirname raw) w1 = true ->
  (forall fmts w',
     fs (fst (try_formats O raw fmts w')) = fs w' /\
     (exists k, log (fst (try_formats O raw fmts w')) =
                  log w' ++ map (fun f => EvDecode f raw) (firstn k fmts)) /\
     (exists r, snd (try_formats O raw fmts w') = inr r)) /\
  (exists k rest post wb,
     log (fst (voice_to_text O a l w)) =
       log w1 ++ EvWrite raw :: map (fun f => EvDecode f raw) (firstn k format_candidates)
         ++ rest ++ post /\
     Forall (fun ev => event_path ev <> Some raw /\ is_unlink ev = false) rest /\
     Forall (fun ev => ev = EvUnlink t \/ ev = EvUnlink raw) post /\
     fs wb !! raw = Some b /\
     fst (voice_to_text O a l w) = fst (cleanup_paths [t; raw] wb) /\
     fs (fst (voice_to_text O a l w)) !! raw = None).
Proof.
  intros Hb Hn raw Hd. split; [intros; apply try_formats_prefix_run |].
  pose proof (mkstemp_loop_fs TMP_MAX ".wav" w) as Hm.
  unfold named_temporary_file in Hn. rewrite Hn in Hm.
  destruct Hm as (_ & _ & r & Ht).
  assert (Htr : t <> raw).
  { unfold raw. rewrite Ht, !string_app_assoc.
    destruct (raw_name_ends_raw ((tmpdir w ++ "/tmp") ++ r)%string) as [y ->].
    intros E. pose proof (endswith_app ((tmpdir w ++ "/tmp") ++ r)%string ".wav") as E1.
    rewrite E, endswith_raw_not_wav in E1. discriminate E1. }
  destruct (voice_to_text_body_log O t b l w1 Hd Htr) as (k & rest & Hl & HF & Hfs).
  fold raw in Hl, HF, Hfs.
  assert (Hw : fst (voice_to_text O a l w) =
     fst (cleanup_paths [t; raw]
       (fst ((convert_to_wav O t b ;;;
              let! audio := record_audio_file O t in
              recognize O audio (_get_recognition_language_code l)) w1)))).
  { unfold voice_to_text. rewrite try_except_world by apply voice_to_text_handler_world.
    clear Hl HF Hfs. unfold raw.
    rewrite bind_apply. unfold lift_sum. rewrite Hb. rewrite bind_apply.
    unfold named_temporary_file. rewrite Hn. unfold try_finally.
    match goal with
    | |- context [match ?m w1 with (_, _) => _ end] => destruct (m w1) as [w2 r2]
    end. cbn [fst].
    pose proof (cleanup_paths_run [t; str_replace t ".wav" ".raw"] w2) as [Hc1 _].
    destruct (cleanup_paths [t; str_replace t ".wav" ".raw"] w2) as [w3 r3].
    cbn [snd] in Hc1. subst r3. reflexivity. }
  set (wb := fst ((convert_to_wav O t b ;;;
                    let! audio := record_audio_file O t in
                    recognize O audio (_get_recognition_language_code l)) w1)) in Hl, HF, Hfs, Hw.
  destruct (rw_cleanup_paths_in (fun ev => ev = EvUnlink t \/ ev = EvUnlink raw)
              (fun _ => True) [t; raw]) with (w := wb) as (post & Hlp & HFp & _).
  { intros p Hp. simpl in Hp. intuition congruence. }
  exists k, rest, post, wb.
  split.
  { rewrite Hw, Hlp, Hl.
    generalize (map (fun f => EvDecode f raw) (take k format_candidates)). intros M.
    rewrite <- app_assoc. cbn [app]. rewrite <- app_assoc. reflexivity. }
  split; [exact HF | split; [exact HFp | split; [exact Hfs | split; [exact Hw |]]]].
  rewrite Hw. pose proof (cleanup_paths_run [t; raw] wb) as [_ Hc2].
  rewrite Hc2, bool_decide_eq_true_2; [reflexivity |].
  apply list_elem_of_further, list_elem_of_here.
Qed.

Lemma try_formats_shared_raw_witness :
  let O := sample_oracles (fun f => if String.eqb f "wav" then Some (mkSeg 1200) else None)
             (Some [1]) (RecText "hello") (RecText "") None in
  (exists k rest post wb,
     log (fst (voice_to_text O "aGVsbG8=" "en" sample_world)) =
       log (fst (named_temporary_file ".wav" sample_world)) ++
       EvWrite "/tmp/tmpaaaaaaaa.raw" ::
         map (fun f => EvDecode f "/tmp/tmpaaaaaaaa.raw") (firstn k format_candidates)
         ++ rest ++ post /\
     Forall (fun ev => event_path ev <> Some "/tmp/tmpaaaaaaaa.raw" /\
                       is_unlink ev = false) rest /\
     Forall (fun ev => ev = EvUnlink "/tmp/tmpaaaaaaaa.wav" \/
                       ev = EvUnlink "/tmp/tmpaaaaaaaa.raw") post /\
     fs wb !! "/tmp/tmpaaaaaaaa.raw" = Some [104; 101; 108; 108; 111] /\
     fst (voice_to_text O "aGVsbG8=" "en" sample_world) =
       fst (cleanup_paths ["/tmp/tmpaaaaaaaa.wav"; "/tmp/tmpaaaaaaaa.raw"] wb) /\
     fs (fst (voice_to_text O "aGVsbG8=" "en" sample_world)) !! "/tmp/tmpaaaaaaaa.raw" = None).
Proof.
  intros O.
  destruct (try_formats_shared_raw O "aGVsbG8=" "en" sample_world [104; 101; 108; 108; 111]
              (fst (named_temporary_file ".wav" sample_world)) "/tmp/tmpaaaaaaaa.wav")
    as [_ H]; [vm_compute; reflexivity .. |].
  exact H.
Defined.

(** C9: in a run where the [m4a] and [mp3] attempts fail and the [wav]
    attempt succeeds, the three attempts read the same raw file, and no file
    is created, written or removed between them. *)
Lemma format_attempts_share_raw_file :
  log (fst (voice_to_text
    (sample_oracles (fun f => if String.eqb f "wav" then Some (mkSeg 1200) else None)
       (Some [1]) (RecText "hello") (RecText "") None) "aGVsbG8=" "en" sample_world)) =
  [EvTempCreate "/tmp/tmpaaaaaaaa.wav"; EvWrite "/tmp/tmpaaaaaaaa.raw";
   EvDecode "m4a" "/tmp/tmpaaaaaaaa.raw"; EvDecode "mp3" "/tmp/tmpaaaaaaaa.raw";
   EvDecode "wav" "/tmp/tmpaaaaaaaa.raw";
   EvExport "/tmp/tmpaaaaaaaa.wav"; EvWrite "/tmp/tmpaaaaaaaa.wav";
   EvWrite "/tmp/tmpaaaaaaaa.wav"; EvOpenAudio "/tmp/tmpaaaaaaaa.wav";
   EvGoogle "en-US" (RecText "hello"); EvUnlink "/tmp/tmpaaaaaaaa.wav";
   EvUnlink "/tmp/tmpaaaaaaaa.raw"].
Proof. vm_compute. reflexivity. Qed.


(** X11: [voice_to_text] leaves no new file behind and changes no file's contents: the files after a run are among those before it. *)
Theorem voice_to_text_leaves_no_file O a l w :
  fs (fst (voice_to_text O a l w)) ⊆ fs w.
Proof.
  pose proof (voice_to_text_fs O a l w) as H.
  destruct (b64decode a); [rewrite H; reflexivity |].
  pose proof (mkstemp_loop_fs TMP_MAX ".wav" w) as Hm.
  destruct (mkstemp_loop TMP_MAX ".wav" w) as [w1 [e|t]]; [rewrite H, Hm; reflexivity |].
  destruct Hm as (Hnone & Hw1 & _).
  apply map_subseteq_spec. intros k x Hx. rewrite H in Hx.
  case_bool_decide as Hk; [discriminate |].
  rewrite Hw1, lookup_insert_ne in Hx by set_solver. exact Hx.
Qed.

(** X12: [voice_to_text] deletes the file with the [.raw] name of its
    temporary [.wav] file, whether or not the call created it: a file of
    that name that existed before the call is gone after it. *)
Theorem voice_to_text_deletes_raw_sibling O a l w b w1 t :
  b64decode a = inr b ->
  named_temporary_file ".wav" w = (w1, inr t) ->
  fs (fst (voice_to_text O a l w)) !! str_replace t ".wav" ".raw" = None.
Proof.
  intros Hd Hn. pose proof (voice_to_text_fs O a l w) as H.
  rewrite Hd in H. unfold named_temporary_file in Hn. rewrite Hn in H.
  rewrite H, bool_decide_eq_true_2; [reflexivity |].
  apply list_elem_of_further, list_elem_of_here.
Qed.

Lemma voice_to_text_deletes_raw_sibling_witness :
  let O := sample_oracles (fun _ => None) None (RecText "") (RecText "") None in
  fs world_with_raw_sibling !! "/tmp/tmpaaaaaaaa.raw" = Some [7; 7] /\
  fs (fst (voice_to_text O "AAAA" "en" world_with_raw_sibling)) !! "/tmp/tmpaaaaaaaa.raw" = None.
Proof.
  intros O. split; [reflexivity |].
  exact (voice_to_text_deletes_raw_sibling O "AAAA" "en" world_with_raw_sibling [0; 0; 0]
           (fst (named_temporary_file ".wav" world_with_raw_sibling)) "/tmp/tmpaaaaaaaa.wav"
           ltac:(vm_compute; reflexivity) ltac:(vm_compute; reflexivity)).
Defined.

(** X10: the cleanup of [voice_to_text] never raises and removes exactly the listed paths. *)
Theorem cleanup_paths_removes_each ps w :
  snd (cleanup_paths ps w) = inr tt /\
  forall k, fs (fst (cleanup_paths ps w)) !! k =
    if bool_decide (k ∈ ps) then None else fs w !! k.
Proof. apply cleanup_paths_run. Qed.

Lemma export_inr O s p fmt w w' u :
  export O s p fmt w = (w', inr u) -> is_Some (fs w' !! p).
Proof.
  unfold export. intros H.
  apply bind_inr_inv in H as (w1 & _ & _ & H).
  apply bind_inr_inv in H as (w2 & _ & _ & H).
  destruct (if String.eqb fmt "wav" then export_wav O s else export_mp3 O s);
    [| discriminate].
  apply write_file_inr in H. eauto.
Qed.

Lemma adjust_and_export_writes O tmp path s w w' d :
  adjust_and_export O tmp path s w = (w', inr d) -> is_Some (fs w' !! path).
Proof.
  unfold adjust_and_export. intros H.
  destruct (negb (Qeq_bool s 1));
    repeat (apply bind_inr_inv in H as (? & ? & ? & H));
    unfold ret in H; injection H as <- _; eapply export_inr; eassumption.
Qed.

Lemma try_finally_inr_inv2 {A} (m : PY A) f w w' y :
  try_finally m f w = (w', inr y) ->
  exists w1 u, m w = (w1, inr y) /\ f w1 = (w', inr u).
Proof.
  unfold try_finally. destruct (m w) as [w1 r].
  destruct (f w1) as [w2 [e|u]] eqn:Hf; [discriminate |].
  intros H. injection H as -> ->. eauto.
Qed.

Lemma gTTS_new_world O text lang slow w w' t :
  gTTS_new O text lang slow w = (w', inr t) -> w' = w.
Proof.
  unfold gTTS_new, raise, ret.
  destruct (String.eqb text ""); [discriminate |]. cbv zeta.
  destruct (tts_supported O (_fallback_deprecated_lang lang)); [| discriminate]. congruence.
Qed.

Lemma audio_path_not_temp tmpdir0 r f :
  startswith "/" tmpdir0 = true ->
  (audio_output_dir ++ "/" ++ f)%string <> (tmpdir0 ++ "/tmp" ++ r ++ ".mp3")%string.
Proof.
  destruct tmpdir0 as [|c rest]; [discriminate |]. intros Hs H.
  cbn [startswith] in Hs.
  destruct (Ascii.eqb "/" c) eqn:E; [| discriminate]. apply Ascii.eqb_eq in E. subst c.
  unfold audio_output_dir in H. cbn [String.append] in H. discriminate H.
Qed.

Lemma text_to_speech_url O text language s w :
  match snd (text_to_speech O text language s w) with
  | inr (url, _) => url = ("/api/v1/audio/" ++ uuid4 O ++ ".mp3")%string
  | inl _ => True
  end.
Proof.
  destruct (text_to_speech O text language s w) as [w' [e|[url d]]] eqn:H; [exact I |].
  cbn. unfold text_to_speech in H.
  apply try_except_inr_inv in H; [| intros e w0; do 2 eexists; reflexivity].
  cbv zeta in H.
  apply bind_inr_inv in H as (w1 & tts & _ & H).
  apply bind_inr_inv in H as (w2 & tmp & _ & H).
  apply bind_inr_inv in H as (w3 & [] & _ & H).
  apply bind_inr_inv in H as (w4 & dur & _ & H).
  unfold ret in H. injection H as _ <- _. reflexivity.
Qed.

Lemma text_to_speech_raises_prefixed O text language s w :
  match snd (text_to_speech O text language s w) with
  | inl e => exc_cls e = ExcException /\
      exists m, exc_msg e = ("Text to speech conversion failed: " ++ m)%string
  | inr _ => True
  end.
Proof.
  unfold text_to_speech, try_except.
  match goal with
  | |- context [match ?m w with (_, _) => _ end] => destruct (m w) as [w1 [e|x]]
  end; cbn; [split; [reflexivity | eauto] | exact I].
Qed.

(** X14: [text_to_speech] on the empty text raises ["Text to speech conversion failed: No text to speak"] and touches nothing. *)
Theorem text_to_speech_empty_text O language s w :
  text_to_speech O "" language s w =
    (w, inl (Exc ExcException "Text to speech conversion failed: No text to speak")).
Proof. reflexivity. Qed.

(** X15: when gTTS knows neither the language code nor its replacement for a deprecated code, [text_to_speech] raises ["... Language not supported: <code>"], naming the code it was given, before creating any file. *)
Theorem text_to_speech_unsupported_language O text language s w :
  String.eqb text "" = false ->
  tts_supported O (_fallback_deprecated_lang (_get_tts_language_code language)) = false ->
  text_to_speech O text language s w =
    (w, inl (Exc ExcException
       ("Text to speech conversion failed: Language not supported: " ++
        _get_tts_language_code language))).
Proof. intros Ht Hs. unfold text_to_speech, gTTS_new. rewrite Ht. cbv zeta. rewrite Hs. reflexivity. Qed.

Lemma text_to_speech_unsupported_language_witness :
  text_to_speech english_only_oracles "Bonjour" "fr" 1 sample_world =
    (sample_world, inl (Exc ExcException
       ("Text to speech conversion failed: Language not supported: " ++
        _get_tts_language_code "fr"))).
Proof.
  apply (text_to_speech_unsupported_language english_only_oracles "Bonjour" "fr" 1
           sample_world); vm_compute; reflexivity.
Defined.

(** X16: after a successful [text_to_speech] (temporary directory absolute), the returned URL is [/api/v1/audio/<uuid>.mp3] and [GET /audio/<uuid>.mp3] serves the file. *)
Theorem text_to_speech_then_get_audio_file O text language s w w' url d :
  startswith "/" (tmpdir w) = true ->
  text_to_speech O text language s w = (w', inr (url, d)) ->
  url = ("/api/v1/audio/" ++ uuid4 O ++ ".mp3")%string /\
  get_audio_file (uuid4 O ++ ".mp3") w' =
    (w', inr (audio_output_dir ++ "/" ++ uuid4 O ++ ".mp3")%string).
Proof.
  intros Hs H. unfold text_to_speech in H.
  apply try_except_inr_inv in H; [| intros e w0; do 2 eexists; reflexivity].
  cbv zeta in H.
  apply bind_inr_inv in H as (w1 & tts & Hg & H).
  apply gTTS_new_world in Hg. subst w1.
  apply bind_inr_inv in H as (w2 & tmp & Hn & H).
  pose proof (mkstemp_loop_fs TMP_MAX ".mp3" w) as Hm.
  unfold named_temporary_file in Hn. rewrite Hn in Hm.
  destruct Hm as (_ & _ & r & ->).
  apply bind_inr_inv in H as (w3 & [] & _ & H).
  apply bind_inr_inv in H as (w4 & dur & Hd & H).
  unfold ret in H. injection H as -> <- _.
  split; [reflexivity |].
  apply try_finally_inr_inv2 in Hd as (w5 & u & Ha & Hc).
  apply adjust_and_export_writes in Ha.
  assert (Hk : keeps_fs_outside [(tmpdir w ++ "/tmp" ++ r ++ ".mp3")%string]
    (let! b := path_exists (tmpdir w ++ "/tmp" ++ r ++ ".mp3")%string in
     if b then unlink (tmpdir w ++ "/tmp" ++ r ++ ".mp3")%string else ret tt)).
  { apply kf_bind; [apply kf_path_exists | intros []; [apply kf_unlink; apply list_elem_of_singleton; reflexivity | apply kf_ret]]. }
  specialize (Hk w5 (audio_output_dir ++ "/" ++ uuid4 O ++ ".mp3")%string).
  rewrite Hc in Hk. cbn [fst] in Hk.
  rewrite <- Hk in Ha
    by (rewrite list_elem_of_singleton; apply audio_path_not_temp; exact Hs).
  unfold get_audio_file. rewrite bool_decide_eq_true_2 by exact Ha. reflexivity.
Qed.

Lemma text_to_speech_then_get_audio_file_witness :
  "/api/v1/audio/8c0e2f4a.mp3" = ("/api/v1/audio/" ++ "8c0e2f4a" ++ ".mp3")%string /\
  get_audio_file "8c0e2f4a.mp3"
    (fst (text_to_speech
            (sample_oracles (fun _ => Some (mkSeg 3000)) None (RecText "") (RecText "")
               (Some [255; 251])) "hello" "en" 1 sample_world)) =
    (fst (text_to_speech
            (sample_oracles (fun _ => Some (mkSeg 3000)) None (RecText "") (RecText "")
               (Some [255; 251])) "hello" "en" 1 sample_world),
     inr "app/static/audio/8c0e2f4a.mp3").
Proof.
  apply (text_to_speech_then_get_audio_file
           (sample_oracles (fun _ => Some (mkSeg 3000)) None (RecText "") (RecText "")
              (Some [255; 251]))
           "hello" "en" 1 sample_world
           (fst (text_to_speech
                   (sample_oracles (fun _ => Some (mkSeg 3000)) None (RecText "")
                      (RecText "") (Some [255; 251]))
                   "hello" "en" 1 sample_world))
           "/api/v1/audio/8c0e2f4a.mp3" (3000 # 1000)); vm_compute; reflexivity.
Defined.

(** X17: a request with ["voice_speed": null] passes validation and then fails with a 500 from comparing [None < 0.8]. *)
Theorem route_text_to_speech_null_speed O text language w :
  is_supported language = true ->
  validate_voice_speed FieldNull = inr None /\
  route_text_to_speech O text language None w =
    (w, inl (HTTPException 500
       ("Text to speech conversion failed: Text to speech conversion failed: " ++
        "'<' not supported between instances of 'NoneType' and 'float'"))).
Proof.
  intros H. split; [reflexivity |].
  unfold route_text_to_speech. rewrite H. reflexivity.
Qed.

Lemma route_text_to_speech_null_speed_witness :
  validate_voice_speed FieldNull = inr None /\
  route_text_to_speech english_only_oracles "hello" "en" None sample_world =
    (sample_world, inl (HTTPException 500
       ("Text to speech conversion failed: Text to speech conversion failed: " ++
        "'<' not supported between instances of 'NoneType' and 'float'"))).
Proof.
  apply route_text_to_speech_null_speed. vm_compute. reflexivity.
Defined.

(** X18: the errors of [POST /text-to-speech] are the 400 for an unsupported language or a 500 with the prefix ["Text to speech conversion failed: "] twice; a response echoes text and language and carries the URL of the new file. *)
Theorem route_text_to_speech_outcome O text language v w :
  match snd (route_text_to_speech O text language v w) with
  | inl e =>
      (is_supported language = false /\
       e = HTTPException 400 ("Unsupported language: " ++ language)) \/
      (status_code e = 500 /\ exists m, detail e =
         ("Text to speech conversion failed: Text to speech conversion failed: " ++ m)%string)
  | inr resp =>
      is_supported language = true /\ tts_resp_text resp = text /\
      tts_resp_language resp = language /\
      tts_audio_url resp = ("/api/v1/audio/" ++ uuid4 O ++ ".mp3")%string
  end.
Proof.
  unfold route_text_to_speech. destruct (is_supported language) eqn:Hl; [| left; auto].
  unfold route_catch, bind, text_to_speech_optional. destruct v as [q|].
  - cbn [py_of_option py_lt_float].
    pose proof (text_to_speech_raises_prefixed O text language q w) as He.
    pose proof (text_to_speech_url O text language q w) as Hu.
    destruct (text_to_speech O text language q w) as [w1 [e|[url d]]]; cbn in He, Hu |- *.
    + right. destruct He as [_ [m Hm]]. split; [reflexivity |]. exists m. rewrite Hm. reflexivity.
    + auto.
  - cbn. right. split; [reflexivity |]. eexists. reflexivity.
Qed.

Ltac conf_branch :=
  split; [split; apply Qle_bool_imp_le; vm_compute; reflexivity |];
  split; [intros Hc; vm_compute in Hc; discriminate Hc |].

Lemma confidence_from_counts_bounds n m :
  (3 # 10 <= confidence_from_counts n m <= 9 # 10)%Q /\
  ((confidence_from_counts n m == 7 # 10)%Q <-> n = 0%nat /\ m = 0%nat).
Proof.
  unfold confidence_from_counts.
  destruct ((n =? 0) && (m =? 0))%nat eqn:E.
  - apply andb_prop in E as [E1 E2]. apply Nat.eqb_eq in E1, E2.
    split; [split; apply Qle_bool_imp_le; reflexivity | split; [auto | intros _; reflexivity]].
  - cbv zeta.
    assert (Hn : ~ (n = 0%nat /\ m = 0%nat)).
    { intros [-> ->]. discriminate E. }
    match goal with |- context [Qltb (7 # 10) ?r] => set (ratio := r) end.
    destruct (Qltb (7 # 10) ratio), (Qltb ratio (3 # 10)), (m <? 2)%nat; conf_branch;
      tauto.
Qed.

Lemma gemini_detect_language_supported G text :
  is_supported (gemini_detect_language G text) = true.
Proof.
  unfold gemini_detect_language, is_supported.
  destruct (detect_reply G text) as [e|r].
  - apply bool_decide_eq_true_2. vm_compute. eauto.
  - cbv zeta.
    destruct (bool_decide (is_Some (supported_languages !! py_lower (py_strip r)))) eqn:E;
      [exact E |].
    apply bool_decide_eq_true_2. vm_compute. eauto.
Qed.

(** X19: [_estimate_confidence] always lies in [[0.3, 0.9]] (the clamp to [[0, 1]] never acts), and it is 0.7 exactly when both texts have no word. *)
Theorem estimate_confidence_range o t :
  (3 # 10 <= _estimate_confidence o t <= 9 # 10)%Q /\
  ((_estimate_confidence o t == 7 # 10)%Q <-> py_split o = [] /\ py_split t = []).
Proof.
  unfold _estimate_confidence.
  destruct (confidence_from_counts_bounds (length (py_split o)) (length (py_split t)))
    as [Hb Hi].
  split; [exact Hb |]. rewrite Hi, !length_zero_iff_nil. reflexivity.
Qed.



(** X21: [POST /translate] checks the source language, then the target language; its 500 details repeat ["Translation failed: "]; a response echoes the request and has a confidence in [[0.3, 0.9]]. *)
Theorem route_translate_text_outcome G text s t :
  match route_translate_text G text s t with
  | inl e =>
      (is_supported s = false /\
       e = HTTPException 400 ("Unsupported source language: " ++ s)) \/
      (is_supported s = true /\ is_supported t = false /\
       e = HTTPException 400 ("Unsupported target language: " ++ t)) \/
      (is_supported s = true /\ is_supported t = true /\ status_code e = 500 /\
       exists m, detail e = ("Translation failed: Translation failed: " ++ m)%string)
  | inr resp =>
      is_supported s = true /\ is_supported t = true /\
      original_text resp = text /\ source_language resp = s /\ target_language resp = t /\
      exists c, confidence_score resp = Some c /\ (3 # 10 <= c <= 9 # 10)%Q
  end.
Proof.
  unfold route_translate_text.
  destruct (is_supported s) eqn:Hs; cbn [negb]; [| left; auto].
  destruct (is_supported t) eqn:Ht; cbn [negb]; [| right; left; auto].
  unfold gemini_translate_text.
  destruct (let? response_text := translate_reply G text s t in _) as [e|[tr c]] eqn:E.
  - right; right. do 3 (split; [reflexivity |]). eexists. reflexivity.
  - do 5 (split; [reflexivity |]). exists c. split; [reflexivity |].
    destruct (translate_reply G text s t) as [e|r]; cbn in E; [discriminate |].
    destruct (String.eqb r ""); [discriminate |]. injection E as _ <-.
    apply confidence_from_counts_bounds.
Qed.

(** X22: [detect_language] always returns a code of [supported_languages]. *)
Theorem detect_language_supported G text :
  is_supported (gemini_detect_language G text) = true.
Proof. apply gemini_detect_language_supported. Qed.


Lemma detect_strip_lower_run :
  gemini_detect_language blank_gemini "Bonjour" = "fr".
Proof. vm_compute. reflexivity. Qed.


Lemma seg_getitem_clipped L a b :
  0 <= L -> 0 <= a <= b ->
  seg_getitem (mkSeg L) (Some a) (Some b) = inr (mkSeg (Z.min b L - Z.min a L)).
Proof.
  intros HL Hab. unfold seg_getitem, pyslice_len, pyslice_norm. cbn [seg_ms default id].
  cbv zeta.
  assert (0 <= Z.min a L) by lia. assert (0 <= Z.min b L) by lia.
  assert (Z.min a L <= Z.min b L) by lia.
  rewrite !(proj2 (Z.ltb_ge (Z.min a L) 0)), !(proj2 (Z.ltb_ge (Z.min b L) 0)) by lia.
  rewrite (Z.min_l (Z.min b L) L), (Z.min_l (Z.min a L) L) by lia.
  rewrite Z.max_r by lia.
  replace (Z.min b L - Z.min a L - (Z.min b L - Z.min a L)) with 0 by lia.
  reflexivity.
Qed.





Lemma chunks_from_spec L cl i k :
  0 <= L -> 0 < cl ->
  exists cs, chunks_from (mkSeg L) cl i k = inr cs /\ length cs = k /\
    fold_right Z.add 0 (map seg_ms cs) =
      Z.min ((Z.of_nat i + Z.of_nat k) * cl) L - Z.min (Z.of_nat i * cl) L.
Proof.
  intros HL Hcl. revert i. induction k as [|k IH]; intros i.
  - exists []. cbn. split; [reflexivity | split; [reflexivity | lia]].
  - cbn [chunks_from]. rewrite seg_getitem_clipped by nia. cbn [sbind].
    destruct (IH (S i)) as (cs & E & Hl & Hs). rewrite E. cbn [sbind].
    eexists. split; [reflexivity |]. cbn [length map fold_right seg_ms].
    split; [lia |]. rewrite Hs. rewrite !Nat2Z.inj_succ. ring_simplify.
    replace ((Z.of_nat i + 1 + Z.of_nat k) * cl) with ((Z.of_nat i + Z.succ (Z.of_nat k)) * cl)
      by lia.
    lia.
Qed.

Lemma ceil_div_spec a b :
  0 <= a -> 0 < b -> 0 <= ceil_div a b /\ a <= ceil_div a b * b /\
    (a <= b -> ceil_div a b <= 1).
Proof.
  intros Ha Hb. unfold ceil_div.
  pose proof (Z.mul_div_le (- a) b Hb).
  pose proof (Z.div_le_upper_bound (- a) b 0 Hb ltac:(lia)).
  split; [lia | split; [nia |]].
  intros Hab. assert (-1 <= (- a) / b); [| lia].
  apply Z.div_le_lower_bound; lia.
Qed.

Lemma make_chunks_spec L cl :
  0 <= L -> 0 < cl ->
  exists cs, make_chunks (mkSeg L) cl = inr cs /\
    length cs = Z.to_nat (ceil_div L cl) /\ fold_right Z.add 0 (map seg_ms cs) = L.
Proof.
  intros HL Hcl. unfold make_chunks. rewrite (proj2 (Z.eqb_neq cl 0)) by lia.
  cbn [seg_ms].
  destruct (chunks_from_spec L cl 0 (Z.to_nat (ceil_div L cl)) HL Hcl) as (cs & E & Hl & Hs).
  exists cs. split; [exact E | split; [exact Hl |]]. rewrite Hs.
  destruct (ceil_div_spec L cl HL Hcl) as (H0 & H1 & _).
  rewrite Z2Nat.id by lia. cbn. lia.
Qed.

(** X24: [make_chunks] cuts a segment into [ceil(len / chunk_length)] chunks whose lengths add up to the segment's. *)
Theorem make_chunks_partition L cl :
  0 <= L -> 0 < cl ->
  exists cs, make_chunks (mkSeg L) cl = inr cs /\
    length cs = Z.to_nat (ceil_div L cl) /\ fold_right Z.add 0 (map seg_ms cs) = L.
Proof. apply make_chunks_spec. Qed.

Lemma make_chunks_partition_witness :
  exists cs, make_chunks (mkSeg 1000) 175 = inr cs /\
    length cs = Z.to_nat (ceil_div 1000 175) /\ fold_right Z.add 0 (map seg_ms cs) = 1000.
Proof. apply make_chunks_partition; lia. Defined.



(** X26: [speedup] raises "it was too short" on every segment no longer
    than one chunk plus the milliseconds removed per chunk; the message gives
    the length in seconds to two decimals, the chunk size and the speed to
    one decimal, as Python's [:.2f] and [:.1f] print them. *)
Theorem speedup_too_short v ms :
  ~ (v == 0)%Q ->
  0 < fst (speedup_params v) + snd (speedup_params v) ->
  0 <= ms <= fst (speedup_params v) + snd (speedup_params v) ->
  speedup (mkSeg ms) v =
    inl (Exc ExcException
      ("Could not speed up AudioSegment, it was too short "
       ++ py_format_fixed 2 (inject_Z ms / 1000) ++ "s for the current settings:
" ++ pretty (snd (speedup_params v)) ++ "ms chunks at " ++ py_format_fixed 1 v
       ++ "x speedup")%string).
Proof.
  intros H0 Hp Hms. unfold speedup.
  destruct (Qeq_bool v 0) eqn:E0; [apply Qeq_bool_iff in E0; contradiction |].
  destruct (speedup_params v) as [r c] eqn:Ep. cbn [fst snd] in Hp, Hms |- *.
  destruct (make_chunks_spec ms (c + r) ltac:(lia) ltac:(lia)) as (cs & E & Hl & _).
  rewrite E. cbn [sbind].
  destruct (ceil_div_spec ms (c + r) ltac:(lia) ltac:(lia)) as (_ & _ & Hc).
  specialize (Hc ltac:(lia)).
  rewrite (proj2 (Nat.ltb_lt (length cs) 2)) by lia. reflexivity.
Qed.

Lemma speedup_too_short_witness :
  speedup (mkSeg 225) (3 # 2) =
    inl (Exc ExcException "Could not speed up AudioSegment, it was too short 0.23s for the current settings:
150ms chunks at 1.5x speedup").
Proof.
  rewrite (speedup_too_short (3 # 2) 225);
    [| intros Hc; vm_compute in Hc; discriminate Hc | vm_compute; reflexivity
     | split; vm_compute; discriminate].
  vm_compute. reflexivity.
Defined.

Lemma speedup_too_short_tight :
  exists out, speedup (mkSeg 226) (3 # 2) = inr out.
Proof. eexists. vm_compute. reflexivity. Qed.
